(** * Allow2Automate Epic Games plugin: policy orchestration

    A shallow embedding of the plugin object of the repository (the
    [epicPlugin] object with its event handlers and IPC handlers) and of
    the [EpicMonitor] service class, together with the properties of the
    specification stated over that embedding.

    Conventions of the embedding.
    - JavaScript strings are [string]; [toLowerCase] is exact on the
      strings of ASCII characters ([JS.is_ascii]), which cover every
      keyword and every catalogued process name of the source, and a
      property that depends on a name not being matched is stated for
      such names.
    - JavaScript numbers that the code only compares and stores
      (quota, check interval) are [Z]; the limit of a violation query,
      which [slice] converts to an integer, is also given as a rational
      ([getViolations_number]).
    - A lookup [table[key] || fallback] falls back for every key but
      the property names an object literal inherits
      ([JS.inherited_keys]); the platform tables are modelled for the
      other keys ([JS.plain_key]).
    - Agent objects and agent arrays live in a store and are handled by
      reference, because the source shares them between the plugin state,
      the closure of the [stateChange] handler and the IPC handlers.
    - Every handler runs to completion before the next one starts (the
      single logical actor of the specification); a handler is a
      computation in a state-and-exception monad over the [World]. *)

From Stdlib Require Import ZArith QArith String Ascii List Bool Lia.
From stdpp Require Import base option list gmap strings.

Local Open Scope string_scope.
Local Open Scope list_scope.
Local Open Scope Z_scope.

(** ** JavaScript primitives used by the source *)

Module JS.

(** [c.toLowerCase()] on one ASCII character. *)
Definition lower_ascii (c : ascii) : ascii :=
  let n := N_of_ascii c in
  if ((65 <=? n) && (n <=? 90))%N then ascii_of_N (n + 32) else c.


(** [s.toLowerCase()], exact when [is_ascii s]. *)
Fixpoint toLowerCase (s : string) : string :=
  match s with
  | EmptyString => EmptyString
  | String c s' => String (lower_ascii c) (toLowerCase s')
  end.

(** [s.includes(k)]: [k] occurs in [s] at some position. *)
Fixpoint includes (s k : string) : bool :=
  String.prefix k s ||
  match s with
  | EmptyString => false
  | String _ s' => includes s' k
  end.

(** [xs.some(p)]. *)
Definition some {A} (p : A -> bool) (xs : list A) : bool := existsb p xs.

(** [x || d] on an optional string: [undefined], [null] and the empty
    string are falsy. *)
Definition or_default (x : option string) (d : string) : string :=
  match x with
  | Some EmptyString | None => d
  | Some s => s
  end.

(** The relative start index of [Array.prototype.slice(start)]:
    a negative [start] counts from the end, and the result is clamped
    to [0 .. length]. *)
Definition slice_start (len start : Z) : Z :=
  if start <? 0 then Z.max (len + start) 0 else Z.min start len.

(** [xs.slice(start)]. *)
Definition slice {A} (start : Z) (xs : list A) : list A :=
  drop (Z.to_nat (slice_start (Z.of_nat (length xs)) start)) xs.

(** Truthiness of a number that is not NaN. *)
Definition truthy (n : Z) : bool := negb (n =? 0).


(** The property names an object literal inherits from
    [Object.prototype].  For such a key [table[key]] is the inherited
    member, which is truthy, so [table[key] || fallback] does not fall
    back. *)
Definition inherited_keys : list string :=
  [ "constructor"; "hasOwnProperty"; "isPrototypeOf";
    "propertyIsEnumerable"; "toLocaleString"; "toString"; "valueOf";
    "__proto__"; "__defineGetter__"; "__defineSetter__";
    "__lookupGetter__"; "__lookupSetter__" ].

(** A key for which [table[key]] is an own property of the table or
    [undefined]. *)
Definition plain_key (key : string) : Prop := ~ In key inherited_keys.

(** [xs.slice(start, end)]: both bounds are relative indices, and the
    result is empty when the end does not lie after the start. *)
Definition slice_range {A} (start stop : Z) (xs : list A) : list A :=
  let len := Z.of_nat (length xs) in
  let from := slice_start len start in
  let to := slice_start len stop in
  take (Z.to_nat (to - from)) (drop (Z.to_nat from) xs).

End JS.

(** ** ProcessCatalog: [getEpicProcessNames] and [isEpicProcess] *)

Record ProcessNames := {
  launcher : list string;
  games : list string
}.

Definition processNames_win32 : ProcessNames := {|
  launcher := [ "EpicGamesLauncher.exe"; "EpicWebHelper.exe";
                "UnrealEngineLauncher-Win64-Shipping.exe" ];
  games := [ "FortniteClient-Win64-Shipping.exe"; "FortniteLauncher.exe";
             "RocketLeague.exe" ]
|}.

Definition processNames_darwin : ProcessNames := {|
  launcher := [ "EpicGamesLauncher"; "Epic Games Launcher.app" ];
  games := [ "Fortnite.app"; "RocketLeague.app" ]
|}.

Definition processNames_linux : ProcessNames := {|
  launcher := [ "EpicGamesLauncher"; "legendary" ];
  games := [ "FortniteClient-Linux-Shipping"; "RocketLeague" ]
|}.

(** [processNames[platform] || processNames.win32].  The table has the
    three own keys below; this is the lookup for every [JS.plain_key],
    and the property names inherited from the object prototype, which
    are not platform names, are left out of the model. *)
Definition getEpicProcessNames (platform : string) : ProcessNames :=
  if String.eqb platform "win32" then processNames_win32
  else if String.eqb platform "darwin" then processNames_darwin
  else if String.eqb platform "linux" then processNames_linux
  else processNames_win32.

Definition epicProcessKeywords : list string :=
  [ "epicgameslauncher"; "epicwebhelper"; "unrealengine"; "fortniteclient";
    "fortnitelauncher"; "rocketleague"; "legendary" ].

Definition isEpicProcess (processName : string) : bool :=
  let lowerProcessName := JS.toLowerCase processName in
  JS.some (fun keyword => JS.includes lowerProcessName keyword)
          epicProcessKeywords.

(** ** Data model *)

(** References into the store: agent objects and agent arrays. *)
Abbreviation loc := nat (only parsing).

Record Agent := {
  a_id : string;
  a_hostname : string;
  a_platform : string;
  a_online : bool;
  a_childId : option string          (* [None]: null or undefined *)
}.

(** [agent.childId = v]. *)
Definition set_childId (v : option string) (a : Agent) : Agent :=
  {| a_id := a_id a; a_hostname := a_hostname a; a_platform := a_platform a;
     a_online := a_online a; a_childId := v |}.

Record Allow2State := {
  paused : bool;
  quota : Z
}.

Record Settings := {
  monitorFortnite : bool;
  monitorAllGames : bool;
  checkInterval : Z;
  enableNotifications : bool
}.

(** The argument of [epic:updateSettings]: any subset of the fields. *)
Record SettingsPatch := {
  new_monitorFortnite : option bool;
  new_monitorAllGames : option bool;
  new_checkInterval : option Z;
  new_enableNotifications : option bool
}.

(** [{ ...settings, ...newSettings }]. *)
Definition spread (s : Settings) (n : SettingsPatch) : Settings := {|
  monitorFortnite := default (monitorFortnite s) (new_monitorFortnite n);
  monitorAllGames := default (monitorAllGames s) (new_monitorAllGames n);
  checkInterval := default (checkInterval s) (new_checkInterval n);
  enableNotifications :=
    default (enableNotifications s) (new_enableNotifications n)
|}.

Record Actions := {
  on_detected : string;
  on_violation : string
}.

(** The [metadata] object of a policy; a field the literal does not list
    is [None]. *)
Record Metadata := {
  m_plugin : option string;
  m_category : option string;
  m_type : option string;
  m_game : option string;
  m_platform : option string
}.

Record Policy := {
  p_processName : string;
  p_processAlternatives : option (list string);
  p_allowed : bool;
  p_checkInterval : Z;
  p_actions : option Actions;
  p_metadata : Metadata
}.

(** The calls the plugin and the monitor make on the agent service. *)
Inductive Push :=
| CreatePolicy (agentId : string) (policy : Policy)
| UpdatePolicy (agentId : string) (processName : string) (allowed : bool)
| DeletePolicy (agentId : string) (processName : string).

Record ViolationData := {
  vd_agentId : string;
  vd_hostname : option string;
  vd_processName : string;
  vd_timestamp : option string;
  vd_childId : option string
}.

Record Violation := {
  v_id : string;
  v_agentId : string;
  v_agentHostname : string;
  v_processName : string;
  v_timestamp : string;
  v_childId : option string
}.

(** What the host supplies to [handleViolation] besides the report: the
    identifier built from [Date.now()] and [Math.random()], and the
    current time as an ISO string. *)
Record Clock := {
  fresh_id : string;
  now_iso : string
}.

Record PluginState := {
  enabled : bool;
  agents : loc;                      (* reference to the agent array *)
  violations : list Violation;
  settings : Settings
}.

(** The optional members of the host context. *)
Record Context := {
  has_agentService : bool;           (* [context.services?.agent] *)
  has_sendToRenderer : bool;
  has_logActivity : bool;
  has_notify : bool;
  has_ipcMain : bool
}.

Inductive Exn :=
| PushRejected (p : Push)            (* the agent service rejected a call *)
| QuotaUnavailable (childId : string)(* [getChildState] rejected *)
| TypeError                          (* property read on undefined *)
| NoHandler                          (* IPC channel without a handler *)
| AgentUnavailable (agentId : string). (* [getAgent] rejected *)

Inductive Level := LOG | WARN | ERROR.

Inductive LogMsg :=
| MsgInitializing
| MsgNoAgentService
| MsgFound (n : nat)
| MsgStateChanged (childId : string)
| MsgDiscovered (hostname : string)
| MsgLost (agentId : string)
| MsgInitialized
| MsgConfiguring (hostname platform : string)
| MsgConfigured (hostname : string)
| MsgConfigureFailed (hostname : string) (e : Exn)
| MsgUpdating (hostname : string) (allowed : bool)
| MsgUpdated (hostname : string)
| MsgUpdateFailed (hostname : string) (e : Exn)
| MsgViolation (agentId processName : string)
| MsgNoIpc
| MsgIpcRegistered
| MsgUnloading
| MsgRemoving (hostname : string)
| MsgQuota (agentId : string) (allowed : bool)
| MsgNoMonitored (agentId : string).

Inductive Payload :=
| PluginError (plugin error : string)
| AgentDiscovered (agent : loc)
| AgentLost (agentId : string)
| EpicViolation (v : Violation).

Record Activity := {
  act_type : string;
  act_plugin : string;
  act_message : string;
  act_timestamp : string;
  act_processName : string;
  act_agentId : string
}.

Record Notification := {
  n_title : string;
  n_body : string;
  n_icon : string
}.

(** Everything a handler does that is visible outside the plugin. *)
Inductive Effect :=
| Console (lvl : Level) (msg : LogMsg)
| ServiceCall (p : Push) (ok : bool)
| SendToRenderer (channel : string) (payload : Payload)
| LogActivity (a : Activity)
| Notify (n : Notification).

(** A process entry of [EpicMonitor.getEpicProcesses]. *)
Record Process := {
  pr_name : string;
  pr_alternatives : list string;
  pr_type : string;
  pr_game : option string
}.

(** The plugin object, the store it shares with its host, and the host.
    - [objs], [arrs]: agent objects and agent arrays, by reference;
    - [closure_agents]: the constant [agents] captured by the
      [stateChange] handler ([None] while no handler is registered);
    - [ipc]: whether the IPC handlers are registered;
    - [monitoredProcesses]: the map of the [EpicMonitor] instance;
    - [svc_outcome n]: whether the [n]-th call on the agent service
      resolves (calls are counted from 0 along the trace);
    - [allow2 c]: what [getChildState(c)] resolves to, if it does;
    - [trace]: the effects so far, oldest first. *)
Record World := {
  objs : gmap loc Agent;
  arrs : gmap loc (list loc);
  state : PluginState;
  closure_agents : option loc;
  ipc : bool;
  monitoredProcesses : gmap string (list Process);
  ctx : Context;
  svc_outcome : nat -> bool;
  allow2 : string -> option Allow2State;
  trace : list Effect
}.

(** Field updates of the plugin state and of the world. *)
Definition st_enabled (b : bool) (s : PluginState) : PluginState :=
  {| enabled := b; agents := agents s; violations := violations s;
     settings := settings s |}.
Definition st_agents (r : loc) (s : PluginState) : PluginState :=
  {| enabled := enabled s; agents := r; violations := violations s;
     settings := settings s |}.
Definition st_violations (vs : list Violation) (s : PluginState)
  : PluginState :=
  {| enabled := enabled s; agents := agents s; violations := vs;
     settings := settings s |}.
Definition st_settings (x : Settings) (s : PluginState) : PluginState :=
  {| enabled := enabled s; agents := agents s; violations := violations s;
     settings := x |}.

Definition w_objs (x : gmap loc Agent) (w : World) : World :=
  {| objs := x; arrs := arrs w; state := state w;
     closure_agents := closure_agents w; ipc := ipc w;
     monitoredProcesses := monitoredProcesses w; ctx := ctx w;
     svc_outcome := svc_outcome w;
     allow2 := allow2 w; trace := trace w |}.
Definition w_arrs (x : gmap loc (list loc)) (w : World) : World :=
  {| objs := objs w; arrs := x; state := state w;
     closure_agents := closure_agents w; ipc := ipc w;
     monitoredProcesses := monitoredProcesses w; ctx := ctx w;
     svc_outcome := svc_outcome w;
     allow2 := allow2 w; trace := trace w |}.
Definition w_state (x : PluginState) (w : World) : World :=
  {| objs := objs w; arrs := arrs w; state := x;
     closure_agents := closure_agents w; ipc := ipc w;
     monitoredProcesses := monitoredProcesses w; ctx := ctx w;
     svc_outcome := svc_outcome w;
     allow2 := allow2 w; trace := trace w |}.
Definition w_closure (x : option loc) (w : World) : World :=
  {| objs := objs w; arrs := arrs w; state := state w;
     closure_agents := x; ipc := ipc w;
     monitoredProcesses := monitoredProcesses w; ctx := ctx w;
     svc_outcome := svc_outcome w;
     allow2 := allow2 w; trace := trace w |}.
Definition w_ipc (x : bool) (w : World) : World :=
  {| objs := objs w; arrs := arrs w; state := state w;
     closure_agents := closure_agents w; ipc := x;
     monitoredProcesses := monitoredProcesses w; ctx := ctx w;
     svc_outcome := svc_outcome w;
     allow2 := allow2 w; trace := trace w |}.
Definition w_monitored (x : gmap string (list Process)) (w : World) : World :=
  {| objs := objs w; arrs := arrs w; state := state w;
     closure_agents := closure_agents w; ipc := ipc w;
     monitoredProcesses := x; ctx := ctx w;
     svc_outcome := svc_outcome w;
     allow2 := allow2 w; trace := trace w |}.
(** The world with the effects [t] appended to its trace. *)
Definition w_log (t : list Effect) (w : World) : World :=
  {| objs := objs w; arrs := arrs w; state := state w;
     closure_agents := closure_agents w; ipc := ipc w;
     monitoredProcesses := monitoredProcesses w; ctx := ctx w;
     svc_outcome := svc_outcome w;
     allow2 := allow2 w; trace := trace w ++ t |}.
Definition w_emit (e : Effect) (w : World) : World := w_log [e] w.

(** Projections of a trace: the calls made on the agent service. *)
Definition pushes_of (t : list Effect) : list Push :=
  omap (fun e => match e with ServiceCall p _ => Some p | _ => None end) t.

Definition calls_made (w : World) : nat := length (pushes_of (trace w)).

Definition is_create (p : Push) : bool :=
  match p with CreatePolicy _ _ => true | _ => false end.
Definition is_update (p : Push) : bool :=
  match p with UpdatePolicy _ _ _ => true | _ => false end.
Definition is_delete (p : Push) : bool :=
  match p with DeletePolicy _ _ => true | _ => false end.

(** ** The handler monad: world passing with exceptions *)

Inductive Outcome (A : Type) :=
| Return (a : A)
| Throw (e : Exn).
Arguments Return {A} a.
Arguments Throw {A} e.

Definition M (A : Type) : Type := World -> Outcome A * World.

Definition ret {A} (a : A) : M A := fun w => (Return a, w).
Definition throw {A} (e : Exn) : M A := fun w => (Throw e, w).
Definition bind {A B} (m : M A) (k : A -> M B) : M B :=
  fun w => match m w with
           | (Return a, w') => k a w'
           | (Throw e, w') => (Throw e, w')
           end.

Declare Scope handler_scope.
Delimit Scope handler_scope with M.
Notation "x <- m ;; k" := (bind m (fun x => k))
  (at level 100, m at next level, right associativity) : handler_scope.
Notation "m ;; k" := (bind m (fun _ => k))
  (at level 100, right associativity) : handler_scope.
Local Open Scope handler_scope.

(** [try { m } catch (error) { h error }]. *)
Definition try_catch {A} (m : M A) (h : Exn -> M A) : M A :=
  fun w => match m w with
           | (Return a, w') => (Return a, w')
           | (Throw e, w') => h e w'
           end.

(** [for (const x of xs) { await f(x) }]. *)
Fixpoint for_of {A} (xs : list A) (f : A -> M unit) : M unit :=
  match xs with
  | [] => ret tt
  | x :: xs' => f x ;; for_of xs' f
  end.

Definition get : M World := fun w => (Return w, w).
Definition modify (f : World -> World) : M unit := fun w => (Return tt, f w).
Definition emit (e : Effect) : M unit := modify (w_emit e).
Definition console (lvl : Level) (msg : LogMsg) : M unit :=
  emit (Console lvl msg).

(** One awaited call on the agent service: it is recorded in the trace
    with its outcome, and a rejection is thrown. *)
Definition call (p : Push) : M unit :=
  fun w =>
    let ok := svc_outcome w (calls_made w) in
    ((if ok then Return tt else Throw (PushRejected p)),
     w_emit (ServiceCall p ok) w).

(** [context.sendToRenderer?.(channel, payload)]. *)
Definition sendToRenderer (channel : string) (payload : Payload) : M unit :=
  w <- get ;;
  if has_sendToRenderer (ctx w) then emit (SendToRenderer channel payload)
  else ret tt.

Definition readAgent (r : loc) : M Agent :=
  w <- get ;;
  match objs w !! r with
  | Some a => ret a
  | None => throw TypeError
  end.

Definition readArr (r : loc) : M (list loc) :=
  w <- get ;;
  match arrs w !! r with
  | Some l => ret l
  | None => throw TypeError
  end.

Definition writeAgent (r : loc) (a : Agent) : M unit :=
  modify (fun w => w_objs (<[r := a]> (objs w)) w).

Definition writeArr (r : loc) (l : list loc) : M unit :=
  modify (fun w => w_arrs (<[r := l]> (arrs w)) w).

(** A new array: a reference not in use. *)
Definition allocArr (l : list loc) : M loc :=
  fun w => let r := fresh (dom (arrs w)) in
           (Return r, w_arrs (<[r := l]> (arrs w)) w).

(** [rs.filter(a => p(a))] and [rs.find(a => p(a))] over an array of
    agent references: the callback reads each agent object in turn. *)
Fixpoint filter_agents (p : Agent -> bool) (rs : list loc) : M (list loc) :=
  match rs with
  | [] => ret []
  | r :: rs' =>
      a <- readAgent r ;;
      keep <- filter_agents p rs' ;;
      ret (if p a then r :: keep else keep)
  end.

Fixpoint find_agent (p : Agent -> bool) (rs : list loc) : M (option loc) :=
  match rs with
  | [] => ret None
  | r :: rs' =>
      a <- readAgent r ;;
      if p a then ret (Some r) else find_agent p rs'
  end.

(** ** The plugin object *)

Definition plugin_name : string := "@allow2/allow2automate-epic".

(** The state the plugin object is created with; its [agents] field is
    the empty array at reference [r]. *)
Definition initial_state (r : loc) : PluginState := {|
  enabled := false;
  agents := r;
  violations := [];
  settings := {| monitorFortnite := true; monitorAllGames := true;
                 checkInterval := 30000; enableNotifications := true |}
|}.

(** The policy of the launcher main process, as [configureEpicPolicy]
    builds it. *)
Definition launcherPolicy (a : Agent) (s : Settings) : Policy :=
  let processNames := getEpicProcessNames (a_platform a) in
  {| p_processName := nth 0 (launcher processNames) "";
     p_processAlternatives := Some (launcher processNames);
     p_allowed := false;
     p_checkInterval := checkInterval s;
     p_actions := Some {| on_detected := "check-quota";
                          on_violation := "kill-process" |};
     p_metadata := {| m_plugin := Some plugin_name;
                      m_category := Some "gaming";
                      m_type := None;
                      m_game := None;
                      m_platform := Some (a_platform a) |} |}.

(** The policy of one game process. *)
Definition gamePolicy (gameName : string) (a : Agent) (s : Settings)
  : Policy :=
  {| p_processName := gameName;
     p_processAlternatives := None;
     p_allowed := false;
     p_checkInterval := checkInterval s;
     p_actions := Some {| on_detected := "check-quota";
                          on_violation := "kill-process" |};
     p_metadata := {| m_plugin := Some plugin_name;
                      m_category := Some "gaming";
                      m_type := Some "game";
                      m_game := None;
                      m_platform := Some (a_platform a) |} |}.

Definition configureEpicPolicy (agent : loc) : M unit :=
  a <- readAgent agent ;;
  console LOG (MsgConfiguring (a_hostname a) (a_platform a)) ;;
  let processNames := getEpicProcessNames (a_platform a) in
  try_catch
    (w <- get ;;
     call (CreatePolicy (a_id a) (launcherPolicy a (settings (state w)))) ;;
     w <- get ;;
     (if monitorAllGames (settings (state w)) then
        for_of (games processNames) (fun gameName =>
          w <- get ;;
          call (CreatePolicy (a_id a)
                  (gamePolicy gameName a (settings (state w)))))
      else ret tt) ;;
     console LOG (MsgConfigured (a_hostname a)))
    (fun error =>
       console ERROR (MsgConfigureFailed (a_hostname a) error) ;;
       throw error).

(** [!allow2State.paused && allow2State.quota > 0]. *)
Definition epicAllowed (allow2State : Allow2State) : bool :=
  negb (paused allow2State) && (0 <? quota allow2State).

Definition updateEpicPolicy (agent : loc) (allow2State : Allow2State)
  : M unit :=
  a <- readAgent agent ;;
  console LOG (MsgUpdating (a_hostname a) (epicAllowed allow2State)) ;;
  try_catch
    (let processNames := getEpicProcessNames (a_platform a) in
     call (UpdatePolicy (a_id a) (nth 0 (launcher processNames) "")
             (epicAllowed allow2State)) ;;
     w <- get ;;
     (if monitorAllGames (settings (state w)) then
        for_of (games processNames) (fun gameName =>
          call (UpdatePolicy (a_id a) gameName (epicAllowed allow2State)))
      else ret tt) ;;
     console LOG (MsgUpdated (a_hostname a)))
    (fun error =>
       console ERROR (MsgUpdateFailed (a_hostname a) error)).

(** The violation record [handleViolation] builds. *)
Definition mkViolation (vd : ViolationData) (clk : Clock) : Violation :=
  {| v_id := fresh_id clk;
     v_agentId := vd_agentId vd;
     v_agentHostname := JS.or_default (vd_hostname vd) "Unknown";
     v_processName := vd_processName vd;
     v_timestamp := JS.or_default (vd_timestamp vd) (now_iso clk);
     v_childId := vd_childId vd |}.

(** [violations.push(violation)] followed by the trim to the last 100. *)
Definition journal_append (v : Violation) (vs : list Violation)
  : list Violation :=
  let pushed := vs ++ [v] in
  if (100 <? Z.of_nat (length pushed)) then JS.slice (-100) pushed
  else pushed.

Definition handleViolation (vd : ViolationData) (clk : Clock) : M unit :=
  console LOG (MsgViolation (vd_agentId vd) (vd_processName vd)) ;;
  let violation := mkViolation vd clk in
  modify (fun w =>
    w_state (st_violations (journal_append violation (violations (state w)))
                           (state w)) w) ;;
  w <- get ;;
  (if has_sendToRenderer (ctx w)
   then emit (SendToRenderer "epicViolation" (EpicViolation violation))
   else ret tt) ;;
  (if has_logActivity (ctx w)
   then emit (LogActivity
          {| act_type := "epic_blocked";
             act_plugin := plugin_name;
             act_message :=
               "Epic Games was blocked on " +:+ v_agentHostname violation;
             act_timestamp := v_timestamp violation;
             act_processName := vd_processName vd;
             act_agentId := vd_agentId vd |})
   else ret tt) ;;
  w <- get ;;
  (if enableNotifications (settings (state w)) && has_notify (ctx w)
   then emit (Notify
          {| n_title := "Epic Games Blocked";
             n_body :=
               "Epic Games was blocked on " +:+ v_agentHostname violation;
             n_icon := "epic-icon.png" |})
   else ret tt).

(** *** Event handlers registered by [onLoad] *)

Definition onStateChange (childId : string) (newState : Allow2State)
  : M unit :=
  console LOG (MsgStateChanged childId) ;;
  w <- get ;;
  match closure_agents w with
  | None => ret tt
  | Some agents_const =>
      all <- readArr agents_const ;;
      childAgents <-
        filter_agents (fun a => bool_decide (a_childId a = Some childId))
                      all ;;
      for_of childAgents (fun agent => updateEpicPolicy agent newState)
  end.

Definition onAgentDiscovered (agent : loc) : M unit :=
  a <- readAgent agent ;;
  console LOG (MsgDiscovered (a_hostname a)) ;;
  w <- get ;;
  arr <- readArr (agents (state w)) ;;
  writeArr (agents (state w)) (arr ++ [agent]) ;;
  configureEpicPolicy agent ;;
  sendToRenderer "epicAgentDiscovered" (AgentDiscovered agent).

Definition onAgentLost (agentId : string) : M unit :=
  console LOG (MsgLost agentId) ;;
  w <- get ;;
  arr <- readArr (agents (state w)) ;;
  kept <- filter_agents (fun a => negb (String.eqb (a_id a) agentId)) arr ;;
  r <- allocArr kept ;;
  modify (fun w => w_state (st_agents r (state w)) w) ;;
  sendToRenderer "epicAgentLost" (AgentLost agentId).

Definition onViolation (vd : ViolationData) (clk : Clock) : M unit :=
  if isEpicProcess (vd_processName vd) then handleViolation vd clk
  else ret tt.

(** *** IPC handlers registered by [setupIPCHandlers] *)

Record Status := {
  status_enabled : bool;
  agentCount : nat;
  onlineAgents : nat;
  recentViolations : nat;
  status_settings : Settings
}.

(** What a handler resolves to. *)
Inductive Reply :=
| Done                                        (* an event handler returned *)
| Success                                     (* [{ success: true }] *)
| SuccessAgents (l : list Agent)
| SuccessViolations (l : list Violation)
| SuccessSettings (s : Settings)
| SuccessStatus (s : Status)
| Failure (error : string).                   (* [{ success: false, error }] *)

(** [rs.map(agent => ({ ...fields of agent }))]. *)
Fixpoint read_agents (rs : list loc) : M (list Agent) :=
  match rs with
  | [] => ret []
  | r :: rs' =>
      a <- readAgent r ;;
      l <- read_agents rs' ;;
      ret (a :: l)
  end.

Definition getAgents : M Reply :=
  w <- get ;;
  arr <- readArr (agents (state w)) ;;
  l <- read_agents arr ;;
  ret (SuccessAgents l).

(** [epic:getViolations] with [{ limit = 50 } = {}], on an integer
    limit. *)
Definition getViolations (limit : option Z) : M Reply :=
  let limit := default 50 limit in
  w <- get ;;
  ret (SuccessViolations (rev (JS.slice (- limit) (violations (state w))))).


Definition clearViolations : M Reply :=
  modify (fun w => w_state (st_violations [] (state w)) w) ;;
  ret Success.

Definition getSettings : M Reply :=
  w <- get ;;
  ret (SuccessSettings (settings (state w))).

Definition updateSettings (newSettings : SettingsPatch) : M Reply :=
  modify (fun w =>
    w_state (st_settings (spread (settings (state w)) newSettings)
                         (state w)) w) ;;
  (match new_checkInterval newSettings with
   | Some n =>
       if JS.truthy n then
         w <- get ;;
         arr <- readArr (agents (state w)) ;;
         for_of arr configureEpicPolicy
       else ret tt
   | None => ret tt
   end) ;;
  w <- get ;;
  ret (SuccessSettings (settings (state w))).

Definition getStatus : M Reply :=
  w <- get ;;
  arr <- readArr (agents (state w)) ;;
  online <- filter_agents a_online arr ;;
  ret (SuccessStatus
         {| status_enabled := enabled (state w);
            agentCount := length arr;
            onlineAgents := length online;
            recentViolations :=
              length (JS.slice (-10) (violations (state w)));
            status_settings := settings (state w) |}).

Definition linkAgent (agentId childId : string) : M Reply :=
  w <- get ;;
  arr <- readArr (agents (state w)) ;;
  found <- find_agent (fun a => String.eqb (a_id a) agentId) arr ;;
  match found with
  | None => ret (Failure "Agent not found")
  | Some agent =>
      a <- readAgent agent ;;
      writeAgent agent (set_childId (Some childId) a) ;;
      match allow2 w childId with
      | None => throw (QuotaUnavailable childId)
      | Some allow2State =>
          updateEpicPolicy agent allow2State ;;
          ret Success
      end
  end.

Definition unlinkAgent (agentId : string) : M Reply :=
  w <- get ;;
  arr <- readArr (agents (state w)) ;;
  found <- find_agent (fun a => String.eqb (a_id a) agentId) arr ;;
  match found with
  | None => ret (Failure "Agent not found")
  | Some agent =>
      a <- readAgent agent ;;
      writeAgent agent (set_childId None a) ;;
      ret Success
  end.

Definition setupIPCHandlers : M unit :=
  w <- get ;;
  if has_ipcMain (ctx w) then
    modify (w_ipc true) ;;
    console LOG MsgIpcRegistered
  else console WARN MsgNoIpc.

(** *** Life cycle *)

(** [onLoad(loadedState, context)]; [listed] is the array
    [agentService.listAgents()] resolves to. *)
Definition onLoad (loadedState : option PluginState) (listed : loc)
  : M unit :=
  console LOG MsgInitializing ;;
  modify (fun w => w_state (default (state w) loadedState) w) ;;
  w <- get ;;
  if negb (has_agentService (ctx w)) then
    console ERROR MsgNoAgentService ;;
    sendToRenderer "pluginError"
      (PluginError plugin_name
         "Agent service not available. Please ensure allow2automate-agent is installed on target devices.")
  else
    modify (w_monitored ∅) ;;
    found <- readArr listed ;;
    console LOG (MsgFound (length found)) ;;
    modify (fun w => w_state (st_agents listed (state w)) w) ;;
    for_of found configureEpicPolicy ;;
    modify (w_closure (Some listed)) ;;
    setupIPCHandlers ;;
    console LOG MsgInitialized ;;
    modify (fun w => w_state (st_enabled true (state w)) w).

Definition onUnload : M unit :=
  console LOG MsgUnloading ;;
  modify (fun w => w_state (st_enabled false (state w)) w) ;;
  w <- get ;;
  if has_agentService (ctx w) then
    arr <- readArr (agents (state w)) ;;
    for_of arr (fun agent =>
      a <- readAgent agent ;;
      console LOG (MsgRemoving (a_hostname a)))
  else ret tt.

(** *** The plugin as a machine driven by its host *)

Inductive Input :=
| Load (loadedState : option PluginState) (listed : loc)
| Unload
| StateChange (childId : string) (newState : Allow2State)
| Discovered (agent : loc)
| Lost (agentId : string)
| Violated (vd : ViolationData) (clk : Clock)
| GetAgents
| GetViolations (limit : option Z)
| ClearViolations
| GetSettings
| UpdateSettings (newSettings : SettingsPatch)
| GetStatus
| LinkAgent (agentId childId : string)
| UnlinkAgent (agentId : string).

Definition event (m : M unit) : M Reply := m ;; ret Done.

(** An event reaches its handler once [onLoad] has registered it; an IPC
    request reaches its handler once [setupIPCHandlers] has. *)
Definition when_listening (m : M unit) : M Reply :=
  w <- get ;;
  match closure_agents w with
  | Some _ => event m
  | None => ret Done
  end.

Definition when_ipc (m : M Reply) : M Reply :=
  w <- get ;;
  if ipc w then m else throw NoHandler.

Definition handle (i : Input) : M Reply :=
  match i with
  | Load loadedState listed => event (onLoad loadedState listed)
  | Unload => event onUnload
  | StateChange childId newState =>
      when_listening (onStateChange childId newState)
  | Discovered agent => when_listening (onAgentDiscovered agent)
  | Lost agentId => when_listening (onAgentLost agentId)
  | Violated vd clk => when_listening (onViolation vd clk)
  | GetAgents => when_ipc getAgents
  | GetViolations limit => when_ipc (getViolations limit)
  | ClearViolations => when_ipc clearViolations
  | GetSettings => when_ipc getSettings
  | UpdateSettings newSettings => when_ipc (updateSettings newSettings)
  | GetStatus => when_ipc getStatus
  | LinkAgent agentId childId => when_ipc (linkAgent agentId childId)
  | UnlinkAgent agentId => when_ipc (unlinkAgent agentId)
  end.

(** The world after a sequence of inputs, each handled to completion;
    a handler that throws leaves the world as it was at the throw. *)
Fixpoint run (inputs : list Input) (w : World) : World :=
  match inputs with
  | [] => w
  | i :: inputs' => run inputs' (snd (handle i w))
  end.

(** What a computation adds to the trace when started in [w]. *)
Definition effects {A} (m : M A) (w : World) : list Effect :=
  drop (length (trace w)) (trace (snd (m w))).

Definition pushes {A} (m : M A) (w : World) : list Push :=
  pushes_of (effects m w).

(** ** The [EpicMonitor] service class *)

Module EpicMonitor.

(** [names[platform] || names.win32] over a table with the keys
    win32, darwin and linux, for every [JS.plain_key]. *)
Definition by_platform {A} (win32 darwin linux : A) (platform : string)
  : A :=
  if String.eqb platform "win32" then win32
  else if String.eqb platform "darwin" then darwin
  else if String.eqb platform "linux" then linux
  else win32.

Definition getLauncherNames : string -> list string :=
  by_platform
    [ "EpicGamesLauncher.exe"; "EpicWebHelper.exe";
      "UnrealEngineLauncher-Win64-Shipping.exe" ]
    [ "EpicGamesLauncher"; "Epic Games Launcher.app" ]
    [ "EpicGamesLauncher"; "legendary" ].

Definition getFortniteNames : string -> list string :=
  by_platform
    [ "FortniteClient-Win64-Shipping.exe"; "FortniteLauncher.exe" ]
    [ "Fortnite.app"; "FortniteClient" ]
    [ "FortniteClient-Linux-Shipping"; "Fortnite" ].

Definition getRocketLeagueNames : string -> list string :=
  by_platform
    [ "RocketLeague.exe" ]
    [ "RocketLeague.app"; "RocketLeague" ]
    [ "RocketLeague" ].

Definition getEpicProcesses (platform : string) (includeGames : bool)
  : list Process :=
  let baseProcesses :=
    [ {| pr_name := "EpicGamesLauncher";
         pr_alternatives := getLauncherNames platform;
         pr_type := "launcher";
         pr_game := None |} ] in
  if negb includeGames then baseProcesses
  else
    let gameProcesses :=
      [ {| pr_name := "FortniteClient";
           pr_alternatives := getFortniteNames platform;
           pr_type := "game";
           pr_game := Some "Fortnite" |};
        {| pr_name := "RocketLeague";
           pr_alternatives := getRocketLeagueNames platform;
           pr_type := "game";
           pr_game := Some "Rocket League" |} ] in
    baseProcesses ++ gameProcesses.

(** [startMonitoring(agentId, config)] from the point where the awaited
    [agentService.getAgent(agentId)] has resolved to the agent object
    [agent]; the two optional members of [config] default to 30000 and
    true.  The trace keeps the
    calls on the agent service; the two [console.log] lines of
    [startMonitoring] and the first one of [stopMonitoring] are not
    recorded in it. *)
Definition startMonitoring (agentId : string) (agent : Agent)
    (checkInterval : option Z) (monitorGames : option bool) : M unit :=
  let checkInterval := default 30000 checkInterval in
  let monitorGames := default true monitorGames in
  let processes := getEpicProcesses (a_platform agent) monitorGames in
  for_of processes (fun process =>
    call (CreatePolicy agentId
            {| p_processName := pr_name process;
               p_processAlternatives := Some (pr_alternatives process);
               p_allowed := false;
               p_checkInterval := checkInterval;
               p_actions := None;
               p_metadata := {| m_plugin := None;
                                m_category := None;
                                m_type := Some (pr_type process);
                                m_game := pr_game process;
                                m_platform := None |} |})) ;;
  modify (fun w =>
    w_monitored (<[agentId := processes]> (monitoredProcesses w)) w).

(** What the awaited [agentService.getAgent(agentId)] does. *)
Inductive Fetched :=
| Resolved (agent : Agent)   (* resolves to an agent object *)
| ResolvedNothing            (* resolves to undefined or null *)
| FetchRejected.             (* rejects *)

(** The [config] argument: null, or a value with the two optional
    members ([undefined] and [{}] have neither). *)
Inductive Config :=
| NullConfig
| Members (checkInterval : option Z) (monitorGames : option bool).

(** [startMonitoring(agentId, config)] as a whole.  Destructuring a null
    [config] throws a TypeError, a rejection of [getAgent] is thrown on,
    and reading [agent.platform] of undefined or null throws a
    TypeError; all three happen before any policy is created. *)
Definition startMonitoring_from (agentId : string) (config : Config)
    (fetched : Fetched) : M unit :=
  match config with
  | NullConfig => throw TypeError
  | Members checkInterval monitorGames =>
      match fetched with
      | Resolved agent =>
          startMonitoring agentId agent checkInterval monitorGames
      | ResolvedNothing => throw TypeError
      | FetchRejected => throw (AgentUnavailable agentId)
      end
  end.

Definition stopMonitoring (agentId : string) : M unit :=
  w <- get ;;
  match monitoredProcesses w !! agentId with
  | None => console WARN (MsgNoMonitored agentId)
  | Some processes =>
      for_of processes (fun process =>
        call (DeletePolicy agentId (pr_name process))) ;;
      modify (fun w =>
        w_monitored (delete agentId (monitoredProcesses w)) w)
  end.

(** [!state.paused && state.quota > 0]. *)
Definition allowed (state : Allow2State) : bool :=
  negb (paused state) && (0 <? quota state).

Definition updateQuotaStatus (agentId childId : string) : M unit :=
  w <- get ;;
  match allow2 w childId with
  | None => throw (QuotaUnavailable childId)
  | Some state =>
      console LOG (MsgQuota agentId (allowed state)) ;;
      match monitoredProcesses w !! agentId with
      | None => console WARN (MsgNoMonitored agentId)
      | Some processes =>
          for_of processes (fun process =>
            call (UpdatePolicy agentId (pr_name process) (allowed state)))
      end
  end.

(** One entry of the [processes] list of [getStats]. *)
Record ProcessInfo := {
  pi_name : string;
  pi_type : string;
  pi_game : option string
}.

Record Stats := {
  stats_agentId : string;
  monitoring : bool;
  processCount : nat;
  stats_processes : list ProcessInfo
}.

Definition getStats (agentId : string) : M Stats :=
  w <- get ;;
  let processes := monitoredProcesses w !! agentId in
  ret {| stats_agentId := agentId;
         monitoring := bool_decide (is_Some processes);
         processCount := match processes with
                         | Some ps => length ps
                         | None => 0%nat
                         end;
         stats_processes :=
           match processes with
           | Some ps =>
               map (fun p => {| pi_name := pr_name p; pi_type := pr_type p;
                                pi_game := pr_game p |}) ps
           | None => []
           end |}.

End EpicMonitor.

(** ** The state of the settings component ([EpicSettings])

    The component keeps the agents, the violations and the settings it
    shows in React state; the functions below are the state updates of
    its listeners and of [handleSettingChange]. *)

Module Renderer.

(** [setViolations(prev => [violation, ...prev].slice(0, 50))]. *)
Definition handleViolation (violation : Violation) (prev : list Violation)
  : list Violation :=
  JS.slice_range 0 50 (violation :: prev).

(** [setAgents(prev => [...prev, agent])]. *)
Definition handleAgentDiscovered (agent : Agent) (prev : list Agent)
  : list Agent :=
  prev ++ [agent].

(** [setAgents(prev => prev.filter(a => a.id !== agentId))]. *)
Definition handleAgentLost (agentId : string) (prev : list Agent)
  : list Agent :=
  List.filter (fun a => negb (String.eqb (a_id a) agentId)) prev.








End Renderer.

(** ** Sample worlds used by the examples below *)

Module Sample.

Definition agentA : Agent :=
  {| a_id := "A"; a_hostname := "pc-a"; a_platform := "win32";
     a_online := true; a_childId := None |}.

Definition agentB : Agent :=
  {| a_id := "B"; a_hostname := "pc-b"; a_platform := "linux";
     a_online := true; a_childId := None |}.

Definition host : Context :=
  {| has_agentService := true; has_sendToRenderer := true;
     has_logActivity := true; has_notify := true; has_ipcMain := true |}.

Definition quota10 : Allow2State := {| paused := false; quota := 10 |}.

(** The plugin before [onLoad]: agent objects A and B at references 0
    and 1, the plugin's own empty agent array at reference 0, and the
    arrays [listAgents()] may resolve to at references 1 (no agent) and
    2 (agent A).  Every service call resolves, and every child has ten
    units of quota and is not paused. *)
Definition unloaded : World :=
  {| objs := <[1%nat := agentB]> (<[0%nat := agentA]> ∅);
     arrs := <[2%nat := [0%nat]]> (<[1%nat := []]> (<[0%nat := []]> ∅));
     state := initial_state 0%nat;
     closure_agents := None;
     ipc := false;
     monitoredProcesses := ∅;
     ctx := host;
     svc_outcome := fun _ => true;
     allow2 := fun _ => Some quota10;
     trace := [] |}.

(** After [onLoad] with no agent on the network yet. *)
Definition loaded_empty : World := run [Load None 1%nat] unloaded.

(** After [onLoad] with agent A on the network. *)
Definition loaded_A : World := run [Load None 2%nat] unloaded.

Definition report (processName : string) : ViolationData :=
  {| vd_agentId := "A"; vd_hostname := Some "pc-a";
     vd_processName := processName; vd_timestamp := None;
     vd_childId := None |}.

Definition clock (n : nat) : Clock :=
  {| fresh_id := String (ascii_of_nat n) EmptyString;
     now_iso := "2025-01-15T10:30:00Z" |}.

End Sample.

(** * Vocabulary of the properties *)

(** [k] occurs in [s]: the reading of "contains as a substring". *)
Definition substring_of (k s : string) : Prop :=
  exists pre post : string, s = pre +:+ k +:+ post.

(** The journal after appending the violations [vs] one by one. *)
Definition append_all (vs : list Violation) (journal : list Violation)
  : list Violation :=
  foldl (fun j v => journal_append v j) journal vs.

(** The last [n] elements of a list. *)
Definition last_n {A} (n : nat) (xs : list A) : list A :=
  drop (length xs - n) xs.

(** [respects R m]: the relation [R] holds between the world before and
    the world after the computation [m], whatever the world before. *)
Definition respects (R : relation World) {A} (m : M A) : Prop :=
  forall w, R w (snd (m w)).

(** [logged P]: the step only appends effects satisfying [P] to the
    trace and leaves the rest of the world as it is. *)
Definition logged (P : Effect -> Prop) : relation World :=
  fun w w' => exists t, w' = w_log t w /\ Forall P t.

(** [extends P]: the step appends effects satisfying [P] to the trace;
    the rest of the world may change. *)
Definition extends (P : Effect -> Prop) : relation World :=
  fun w w' => exists t, trace w' = trace w ++ t /\ Forall P t.

(** A condition on the service calls of a trace; other effects are free. *)
Definition only_pushes (Q : Push -> Prop) (e : Effect) : Prop :=
  match e with
  | ServiceCall p _ => Q p
  | _ => True
  end.

(** A create of a policy that denies. *)
Definition deny_create (p : Push) : Prop :=
  exists agentId policy, p = CreatePolicy agentId policy /\
                         p_allowed policy = false.

(** An update that sets the allowed flag to [b] and nothing else. *)
Definition update_with (b : bool) (p : Push) : Prop :=
  exists agentId processName, p = UpdatePolicy agentId processName b.

(** Every call on the agent service resolves. *)
Definition service_up (w : World) : Prop := forall n, svc_outcome w n = true.

(** The policies [configureEpicPolicy] creates for an agent, in order. *)
Definition desired_policies (a : Agent) (s : Settings) : list Policy :=
  launcherPolicy a s ::
  (if monitorAllGames s
   then map (fun gameName => gamePolicy gameName a s)
            (games (getEpicProcessNames (a_platform a)))
   else []).

(** What [configureEpicPolicy] adds to the trace when every call
    resolves. *)
Definition configure_effects (a : Agent) (s : Settings) : list Effect :=
  [Console LOG (MsgConfiguring (a_hostname a) (a_platform a))] ++
  map (fun p => ServiceCall (CreatePolicy (a_id a) p) true)
      (desired_policies a s) ++
  [Console LOG (MsgConfigured (a_hostname a))].

(** What one delivery of [agentDiscovered] adds to the trace when every
    call resolves. *)
Definition discover_effects (agent : loc) (a : Agent) (s : Settings)
    (c : Context) : list Effect :=
  [Console LOG (MsgDiscovered (a_hostname a))] ++
  configure_effects a s ++
  (if has_sendToRenderer c
   then [SendToRenderer "epicAgentDiscovered" (AgentDiscovered agent)]
   else []).

(** The world after [handleViolation] has run on each report in turn. *)
Definition record_all (reports : list (ViolationData * Clock)) (w : World)
  : World :=
  foldl (fun w r => snd (handleViolation (fst r) (snd r) w)) w reports.

(** The process names of the policies a list of calls creates. *)
Definition created_names (ps : list Push) : list string :=
  omap (fun p => match p with
                 | CreatePolicy _ policy => Some (p_processName policy)
                 | _ => None
                 end) ps.

(** The loop of [epic:updateSettings] over the known agents. *)
Definition reconfigure : M unit :=
  w <- get ;;
  arr <- readArr (agents (state w)) ;;
  for_of arr configureEpicPolicy.

(** Whether an update reaches that loop: [if (newSettings.checkInterval)]. *)
Definition reconfigures (newSettings : SettingsPatch) : bool :=
  match new_checkInterval newSettings with
  | Some n => JS.truthy n
  | None => false
  end.

(** The agent list of the plugin holds the references [rs], and these
    denote the agent records [agts]. *)
Definition known_agents (w : World) (rs : list loc) (agts : list Agent)
  : Prop :=
  arrs w !! agents (state w) = Some rs /\
  Forall2 (fun r a => objs w !! r = Some a) rs agts.

(** The settings an update leaves in the plugin state. *)
Definition stored (newSettings : SettingsPatch) (w : World) : World :=
  w_state (st_settings (spread (settings (state w)) newSettings) (state w)) w.

(** The update that only turns monitorAllGames off, and the same update
    carrying a check interval as well. *)
Definition games_off : SettingsPatch :=
  {| new_monitorFortnite := None; new_monitorAllGames := Some false;
     new_checkInterval := None; new_enableNotifications := None |}.

Definition games_off_interval (n : Z) : SettingsPatch :=
  {| new_monitorFortnite := None; new_monitorAllGames := Some false;
     new_checkInterval := Some n; new_enableNotifications := None |}.

(** An update that only sets the check interval. *)
Definition interval_only (n : Z) : SettingsPatch :=
  {| new_monitorFortnite := None; new_monitorAllGames := None;
     new_checkInterval := Some n; new_enableNotifications := None |}.

(** A paused entity with ten units of quota left. *)
Definition paused10 : Allow2State := {| paused := true; quota := 10 |}.

(** The world loaded with agent A after two Fortnite violations. *)
Definition two_violations : World :=
  record_all
    [ (Sample.report "FortniteClient-Win64-Shipping.exe", Sample.clock 1);
      (Sample.report "FortniteLauncher.exe", Sample.clock 2) ]
    Sample.loaded_A.

(** The outcome and the trace of calls made on the agent service one
    after the other until one is rejected; [n] is the number of calls
    made before the first of them. *)
Fixpoint attempt (oracle : nat -> bool) (n : nat) (ps : list Push)
  : Outcome unit * list Effect :=
  match ps with
  | [] => (Return tt, [])
  | p :: ps' =>
      if oracle n
      then let r := attempt oracle (S n) ps' in
           (fst r, ServiceCall p true :: snd r)
      else (Throw (PushRejected p), [ServiceCall p false])
  end.

(** The updates [updateEpicPolicy] makes for an agent, in order. *)
Definition desired_updates (a : Agent) (s : Settings) (b : bool)
  : list Push :=
  map (fun p => UpdatePolicy (a_id a) (p_processName p) b)
      (desired_policies a s).

(** The first update [updateEpicPolicy] makes for an agent: the one of
    its launcher policy. *)
Definition launcher_update (a : Agent) (b : bool) : Push :=
  UpdatePolicy (a_id a)
               (nth 0 (launcher (getEpicProcessNames (a_platform a))) "") b.

(** The process names a list of calls updates. *)
Definition updated_names (ps : list Push) : list string :=
  omap (fun p => match p with
                 | UpdatePolicy _ processName _ => Some processName
                 | _ => None
                 end) ps.

(** The process names a list of calls deletes. *)
Definition deleted_names (ps : list Push) : list string :=
  omap (fun p => match p with
                 | DeletePolicy _ processName => Some processName
                 | _ => None
                 end) ps.

(** The agent list of the plugin holds the references of [ras], and
    each of them denotes the agent record paired with it. *)
Definition known_pairs (w : World) (ras : list (loc * Agent)) : Prop :=
  known_agents w (map fst ras) (map snd ras).

(** No call on the agent service. *)
Definition no_push (p : Push) : Prop := False.

(** What [handleViolation] adds to the trace, by the members the host
    context has and by the notification setting. *)
Definition violation_effects (vd : ViolationData) (clk : Clock)
    (c : Context) (s : Settings) : list Effect :=
  let violation := mkViolation vd clk in
  [Console LOG (MsgViolation (vd_agentId vd) (vd_processName vd))] ++
  (if has_sendToRenderer c
   then [SendToRenderer "epicViolation" (EpicViolation violation)]
   else []) ++
  (if has_logActivity c
   then [LogActivity
           {| act_type := "epic_blocked";
              act_plugin := plugin_name;
              act_message :=
                "Epic Games was blocked on " +:+ v_agentHostname violation;
              act_timestamp := v_timestamp violation;
              act_processName := vd_processName vd;
              act_agentId := vd_agentId vd |}]
   else []) ++
  (if enableNotifications s && has_notify c
   then [Notify
           {| n_title := "Epic Games Blocked";
              n_body :=
                "Epic Games was blocked on " +:+ v_agentHostname violation;
              n_icon := "epic-icon.png" |}]
   else []).

(** The world in which [onLoad] starts to configure the agents of the
    array [listed], which holds [n] agents: the loaded state is adopted,
    the monitor is created and the array is the plugin's agent list. *)
Definition load_started (loadedState : option PluginState) (listed : loc)
    (n : nat) (w : World) : World :=
  w_state (st_agents listed (default (state w) loadedState))
    (w_log [Console LOG MsgInitializing; Console LOG (MsgFound n)]
       (w_monitored ∅ w)).

(** The world in which [onLoad] ends after it has configured the agents
    and reached the world [w3]: the handlers are registered, the IPC
    handlers too if the host has [ipcMain], and the plugin is enabled. *)
Definition load_finished (listed : loc) (w3 : World) : World :=
  let w4 := w_closure (Some listed) w3 in
  let w5 := if has_ipcMain (ctx w3)
            then w_log [Console LOG MsgIpcRegistered] (w_ipc true w4)
            else w_log [Console WARN MsgNoIpc] w4 in
  w_state (st_enabled true (state w5)) (w_log [Console LOG MsgInitialized] w5).

(** The policy [EpicMonitor.startMonitoring] creates for a process. *)
Definition monitor_policy (checkInterval : Z) (process : Process) : Policy :=
  {| p_processName := pr_name process;
     p_processAlternatives := Some (pr_alternatives process);
     p_allowed := false;
     p_checkInterval := checkInterval;
     p_actions := None;
     p_metadata := {| m_plugin := None;
                      m_category := None;
                      m_type := Some (pr_type process);
                      m_game := pr_game process;
                      m_platform := None |} |}.

(** What [updateEpicPolicy] adds to the trace when every call
    resolves. *)
Definition update_effects (a : Agent) (s : Settings) (st : Allow2State)
  : list Effect :=
  [Console LOG (MsgUpdating (a_hostname a) (epicAllowed st))] ++
  map (fun p => ServiceCall p true) (desired_updates a s (epicAllowed st)) ++
  [Console LOG (MsgUpdated (a_hostname a))].

(** The world [w] with an agent service that behaves as [oracle]. *)
Definition with_outcome (oracle : nat -> bool) (w : World) : World :=
  {| objs := objs w; arrs := arrs w; state := state w;
     closure_agents := closure_agents w; ipc := ipc w;
     monitoredProcesses := monitoredProcesses w; ctx := ctx w;
     svc_outcome := oracle; allow2 := allow2 w; trace := trace w |}.

(** The world [w] with a quota bridge that resolves as [bridge]. *)
Definition with_allow2 (bridge : string -> option Allow2State) (w : World)
  : World :=
  {| objs := objs w; arrs := arrs w; state := state w;
     closure_agents := closure_agents w; ipc := ipc w;
     monitoredProcesses := monitoredProcesses w; ctx := ctx w;
     svc_outcome := svc_outcome w; allow2 := bridge; trace := trace w |}.

(** An agent service that rejects its [k]-th call and no other. *)
Definition rejects_only (k : nat) (n : nat) : bool := negb (Nat.eqb n k).

(** The agents of [ras] that are not the agent [agentId]. *)
Definition without_agent (agentId : string) (ras : list (loc * Agent))
  : list (loc * Agent) :=
  List.filter (fun ra => negb (String.eqb (a_id (snd ra)) agentId)) ras.

(** The agents of [ras] bound to the entity [childId]. *)
Definition linked_to (childId : string) (ras : list (loc * Agent))
  : list (loc * Agent) :=
  List.filter (fun ra => bool_decide (a_childId (snd ra) = Some childId)) ras.

(** The first agent of [ras] with identifier [agentId]. *)
Definition first_with_id (agentId : string) (ras : list (loc * Agent))
  : option (loc * Agent) :=
  List.find (fun ra => String.eqb (a_id (snd ra)) agentId) ras.

(** * Lemmas *)

(** ** Strings: what [includes] decides *)

Lemma prefix_app (k s : string) :
  String.prefix k s = true <-> exists post, s = k +:+ post.
Proof.
  revert s. induction k as [|c k IH]; intros s.
  - destruct s; simpl; (split; [intros _; by eexists | done]).
  - destruct s as [|d s]; simpl.
    + split; [done | intros [post H]; discriminate H].
    + destruct (Ascii.ascii_dec c d) as [->|Hne].
      * rewrite IH. split; intros [post H]; exists post.
        -- by rewrite H.
        -- by injection H.
      * split; [done | intros [post H]; injection H; congruence].
Qed.

Lemma includes_substring (s k : string) :
  JS.includes s k = true <-> substring_of k s.
Proof.
  induction s as [|c s IH]; cbn [JS.includes].
  - rewrite orb_false_r, prefix_app. split.
    + intros [post H]. by exists EmptyString, post.
    + intros [pre [post H]]. destruct pre; simpl in H; [by exists post|done].
  - rewrite orb_true_iff, prefix_app, IH. split.
    + intros [[post H] | [pre [post H]]].
      * by exists EmptyString, post.
      * exists (String c pre), post. simpl. by rewrite H.
    + intros [pre [post H]]. destruct pre as [|d pre]; simpl in H.
      * left. by exists post.
      * right. exists pre, post. by injection H.
Qed.

Lemma isEpicProcess_keyword (processName : string) :
  isEpicProcess processName = true <->
  exists keyword, In keyword epicProcessKeywords /\
                  substring_of keyword (JS.toLowerCase processName).
Proof.
  unfold isEpicProcess, JS.some. rewrite existsb_exists.
  split; intros [k [Hin H]]; exists k; split; auto;
    by apply includes_substring.
Qed.

(** ** Arrays: what [slice] returns *)


(** [slice(-n)] for a positive [n] keeps the last [n] elements. *)
Lemma slice_neg {A} (n : Z) (xs : list A) :
  0 < n ->
  JS.slice (- n) xs = drop (length xs - Z.to_nat n) xs.
Proof.
  intros Hn. unfold JS.slice, JS.slice_start.
  destruct (Z.ltb_spec (- n) 0); [|lia]. f_equal. lia.
Qed.


Lemma slice_neg_length {A} (n : Z) (xs : list A) :
  0 < n -> length (JS.slice (- n) xs) = Nat.min (Z.to_nat n) (length xs).
Proof. intros Hn. rewrite slice_neg, length_drop by done. lia. Qed.

(** ** The violation journal *)

Lemma journal_append_last_n (v : Violation) (vs : list Violation) :
  journal_append v vs = last_n 100 (vs ++ [v]).
Proof.
  unfold journal_append, last_n.
  destruct (Z.ltb_spec 100 (Z.of_nat (length (vs ++ [v])))) as [H|H].
  - change (-100) with (Z.opp 100). by rewrite slice_neg.
  - replace (length (vs ++ [v]) - 100)%nat with 0%nat by lia. done.
Qed.

Lemma last_n_length {A} (n : nat) (xs : list A) :
  length (last_n n xs) = Nat.min n (length xs).
Proof. unfold last_n. rewrite length_drop. lia. Qed.

Lemma last_n_app_last_n {A} (n : nat) (xs ys : list A) :
  ys <> [] -> last_n n (last_n n xs ++ ys) = last_n n (xs ++ ys).
Proof.
  intros Hys. unfold last_n.
  assert (0 < length ys)%nat by (destruct ys; simpl; [done | lia]).
  rewrite !length_app, length_drop.
  destruct (Nat.le_gt_cases (length xs) n) as [Hle|Hgt].
  - replace (length xs - n)%nat with 0%nat by lia. simpl.
    by rewrite Nat.sub_0_r.
  - assert (E : (length xs - (length xs - n) + length ys - n)%nat
                = length ys) by lia.
    rewrite E, !drop_app, drop_drop, length_drop.
    f_equal; f_equal; lia.
Qed.

Lemma journal_append_length (v : Violation) (vs : list Violation) :
  (length (journal_append v vs) <= 100)%nat.
Proof. rewrite journal_append_last_n, last_n_length. lia. Qed.

Lemma journal_append_last (v : Violation) (vs : list Violation) :
  last (journal_append v vs) = Some v.
Proof.
  rewrite journal_append_last_n. unfold last_n.
  assert (H : (length (vs ++ [v]) - 100 <= length vs)%nat)
    by (rewrite length_app; simpl; lia).
  rewrite drop_app_le by done. apply last_snoc.
Qed.

Lemma append_all_snoc (vs : list Violation) (v : Violation)
    (journal : list Violation) :
  append_all (vs ++ [v]) journal = journal_append v (append_all vs journal).
Proof. unfold append_all. by rewrite foldl_app. Qed.

(** After at least one append the journal holds the last 100 entries of
    everything it was given, in the order given. *)
Lemma append_all_last_n (vs : list Violation) (journal : list Violation) :
  vs <> [] -> append_all vs journal = last_n 100 (journal ++ vs).
Proof.
  induction vs as [|v vs IH] using rev_ind; [done|]. intros _.
  rewrite append_all_snoc, journal_append_last_n.
  destruct vs as [|v0 vs].
  - done.
  - rewrite IH by done. rewrite last_n_app_last_n by done.
    by rewrite <- app_assoc.
Qed.

(** ** Reasoning about handlers *)

Lemma w_log_nil (w : World) : w_log [] w = w.
Proof. destruct w. unfold w_log. simpl. by rewrite app_nil_r. Qed.

Lemma w_log_app (t1 t2 : list Effect) (w : World) :
  w_log t2 (w_log t1 w) = w_log (t1 ++ t2) w.
Proof. unfold w_log. simpl. by rewrite app_assoc. Qed.

Lemma w_arrs_log x (t : list Effect) (w : World) :
  w_arrs x (w_log t w) = w_log t (w_arrs x w).
Proof. reflexivity. Qed.

Lemma w_objs_log x (t : list Effect) (w : World) :
  w_objs x (w_log t w) = w_log t (w_objs x w).
Proof. reflexivity. Qed.

Lemma w_state_log x (t : list Effect) (w : World) :
  w_state x (w_log t w) = w_log t (w_state x w).
Proof. reflexivity. Qed.

Lemma pushes_of_app (t1 t2 : list Effect) :
  pushes_of (t1 ++ t2) = pushes_of t1 ++ pushes_of t2.
Proof. apply omap_app. Qed.

Lemma effects_log {A} (m : M A) (w : World) (t : list Effect) :
  trace (snd (m w)) = trace w ++ t -> effects m w = t.
Proof. intros H. unfold effects. rewrite H. apply drop_app_length. Qed.

(** The combinators of the handler monad maintain any reflexive and
    transitive relation that the steps they combine maintain. *)
Section Respects.

Context (R : relation World) `{!Reflexive R, !Transitive R}.

Lemma respects_ret {A} (a : A) : respects R (ret a).
Proof. intros w. simpl. reflexivity. Qed.

Lemma respects_throw {A} (e : Exn) : respects R (@throw A e).
Proof. intros w. simpl. reflexivity. Qed.

Lemma respects_get : respects R get.
Proof. intros w. simpl. reflexivity. Qed.

Lemma respects_modify (f : World -> World) :
  (forall w, R w (f w)) -> respects R (modify f).
Proof. intros H w. apply H. Qed.

Lemma respects_bind {A B} (m : M A) (k : A -> M B) :
  respects R m -> (forall a, respects R (k a)) -> respects R (bind m k).
Proof.
  intros Hm Hk w. unfold bind. specialize (Hm w).
  destruct (m w) as [[a|e] w']; simpl in *; [|done].
  etransitivity; [exact Hm | apply Hk].
Qed.

Lemma respects_try_catch {A} (m : M A) (h : Exn -> M A) :
  respects R m -> (forall e, respects R (h e)) -> respects R (try_catch m h).
Proof.
  intros Hm Hh w. unfold try_catch. specialize (Hm w).
  destruct (m w) as [[a|e] w']; simpl in *; [done|].
  etransitivity; [exact Hm | apply Hh].
Qed.

Lemma respects_for_of {A} (xs : list A) (f : A -> M unit) :
  (forall x, respects R (f x)) -> respects R (for_of xs f).
Proof.
  intros Hf. induction xs as [|x xs IH]; simpl.
  - apply respects_ret.
  - apply respects_bind; [apply Hf | intros _; apply IH].
Qed.

Lemma respects_readAgent (r : loc) : respects R (readAgent r).
Proof.
  unfold readAgent. apply respects_bind; [apply respects_get|].
  intros w. destruct (objs w !! r);
    [apply respects_ret | apply respects_throw].
Qed.

Lemma respects_readArr (r : loc) : respects R (readArr r).
Proof.
  unfold readArr. apply respects_bind; [apply respects_get|].
  intros w. destruct (arrs w !! r);
    [apply respects_ret | apply respects_throw].
Qed.

Lemma respects_filter_agents (p : Agent -> bool) (rs : list loc) :
  respects R (filter_agents p rs).
Proof.
  induction rs as [|r rs IH]; simpl; [apply respects_ret|].
  apply respects_bind; [apply respects_readAgent | intros a].
  apply respects_bind; [apply IH | intros keep; apply respects_ret].
Qed.

Lemma respects_find_agent (p : Agent -> bool) (rs : list loc) :
  respects R (find_agent p rs).
Proof.
  induction rs as [|r rs IH]; simpl; [apply respects_ret|].
  apply respects_bind; [apply respects_readAgent | intros a].
  destruct (p a); [apply respects_ret | apply IH].
Qed.

Lemma respects_read_agents (rs : list loc) : respects R (read_agents rs).
Proof.
  induction rs as [|r rs IH]; simpl; [apply respects_ret|].
  apply respects_bind; [apply respects_readAgent | intros a].
  apply respects_bind; [apply IH | intros l; apply respects_ret].
Qed.

End Respects.

(** Decompose a goal [respects R m] along the structure of [m]; what is
    left are the steps that write to the world. *)
Ltac side_instances :=
  lazymatch goal with
  | |- Reflexive _ => apply _
  | |- Transitive _ => apply _
  | _ => idtac
  end.

Ltac respects_step :=
  lazymatch goal with
  | |- respects _ (bind _ _) =>
      apply respects_bind; side_instances; [|intros ?]
  | |- respects _ (try_catch _ _) =>
      apply respects_try_catch; side_instances; [|intros ?]
  | |- respects _ (for_of _ _) =>
      apply respects_for_of; side_instances; intros ?
  | |- respects _ (ret _) => apply respects_ret; side_instances
  | |- respects _ (throw _) => apply respects_throw; side_instances
  | |- respects _ get => apply respects_get; side_instances
  | |- respects _ (readAgent _) => apply respects_readAgent; side_instances
  | |- respects _ (readArr _) => apply respects_readArr; side_instances
  | |- respects _ (filter_agents _ _) =>
      apply respects_filter_agents; side_instances
  | |- respects _ (find_agent _ _) =>
      apply respects_find_agent; side_instances
  | |- respects _ (read_agents _) =>
      apply respects_read_agents; side_instances
  | |- respects _ (if ?b then _ else _) => destruct b
  | |- respects _ (match ?x with _ => _ end) => destruct x
  end.

Ltac respects_auto := repeat respects_step.

#[export] Instance logged_refl P : Reflexive (logged P).
Proof. intros w. exists []. by rewrite w_log_nil. Qed.

#[export] Instance logged_trans P : Transitive (logged P).
Proof.
  intros w1 w2 w3 [t1 [-> H1]] [t2 [-> H2]]. exists (t1 ++ t2).
  rewrite w_log_app. split; [done | by apply Forall_app].
Qed.

#[export] Instance extends_refl P : Reflexive (extends P).
Proof. intros w. exists []. by rewrite app_nil_r. Qed.

#[export] Instance extends_trans P : Transitive (extends P).
Proof.
  intros w1 w2 w3 [t1 [E1 H1]] [t2 [E2 H2]]. exists (t1 ++ t2).
  rewrite E2, E1, app_assoc. split; [done | by apply Forall_app].
Qed.

Lemma logged_extends P (w w' : World) : logged P w w' -> extends P w w'.
Proof. intros [t [-> H]]. by exists t. Qed.

Lemma respects_logged_extends {A} P (m : M A) :
  respects (logged P) m -> respects (extends P) m.
Proof. intros H w. apply logged_extends, H. Qed.

Lemma logged_emit P (e : Effect) :
  P e -> respects (logged P) (emit e).
Proof.
  intros H. apply respects_modify. intros w.
  exists [e]. split; [done | by constructor].
Qed.

Lemma logged_console P (lvl : Level) (msg : LogMsg) :
  P (Console lvl msg) -> respects (logged P) (console lvl msg).
Proof. apply logged_emit. Qed.

Lemma logged_call P (p : Push) :
  (forall ok, P (ServiceCall p ok)) -> respects (logged P) (call p).
Proof.
  intros H w. unfold call. simpl.
  eexists [_]. split; [done | constructor; [apply H | constructor]].
Qed.

Lemma logged_sendToRenderer P (channel : string) (payload : Payload) :
  P (SendToRenderer channel payload) ->
  respects (logged P) (sendToRenderer channel payload).
Proof.
  intros H. unfold sendToRenderer. respects_auto. by apply logged_emit.
Qed.

Lemma extends_effects {A} P (m : M A) (w : World) :
  respects (extends P) m -> Forall P (effects m w).
Proof.
  intros H. destruct (H w) as [t [E Ht]]. by rewrite (effects_log m w t).
Qed.

(** ** What the policy handlers push *)

Lemma only_pushes_Forall (Q : Push -> Prop) (t : list Effect) :
  Forall (only_pushes Q) t -> Forall Q (pushes_of t).
Proof.
  induction 1 as [|e t He _ IH]; [constructor|].
  destruct e; simpl in *; auto.
Qed.

Lemma configureEpicPolicy_logged (agent : loc) :
  respects (logged (only_pushes deny_create)) (configureEpicPolicy agent).
Proof.
  unfold configureEpicPolicy. respects_auto;
    try (by apply logged_console);
    apply logged_call; intros ok; simpl; by eexists _, _.
Qed.

Lemma updateEpicPolicy_logged (agent : loc) (st : Allow2State) :
  respects (logged (only_pushes (update_with (epicAllowed st))))
           (updateEpicPolicy agent st).
Proof.
  unfold updateEpicPolicy. respects_auto;
    try (by apply logged_console);
    apply logged_call; intros ok; simpl; by eexists _, _.
Qed.

Lemma onStateChange_logged (childId : string) (st : Allow2State) :
  respects (logged (only_pushes (update_with (epicAllowed st))))
           (onStateChange childId st).
Proof.
  unfold onStateChange. respects_auto;
    try (by apply logged_console).
  apply updateEpicPolicy_logged.
Qed.

(** Reading the store does not change the world. *)
Lemma find_agent_pure (p : Agent -> bool) (rs : list loc) (w : World) :
  snd (find_agent p rs w) = w.
Proof. symmetry. apply (respects_find_agent eq). Qed.

Lemma filter_agents_pure (p : Agent -> bool) (rs : list loc) (w : World) :
  snd (filter_agents p rs w) = w.
Proof. symmetry. apply (respects_filter_agents eq). Qed.

(** [updateEpicPolicy] swallows every rejection: for an agent object in
    the store it always returns normally. *)
Lemma updateEpicPolicy_returns (agent : loc) (a : Agent) (st : Allow2State)
    (w : World) :
  objs w !! agent = Some a ->
  fst (updateEpicPolicy agent st w) = Return tt.
Proof.
  intros Ha. unfold updateEpicPolicy, readAgent, bind, get, try_catch.
  simpl. rewrite Ha. simpl.
  match goal with |- context [match ?m with _ => _ end] =>
    destruct m as [[[]|e] w'] end; reflexivity.
Qed.

(** *** Runs in which every service call resolves *)

#[local] Arguments call : simpl never.
#[local] Arguments configureEpicPolicy : simpl never.
#[local] Arguments updateEpicPolicy : simpl never.

(** Unfold the monad operations of a handler applied to a world. *)
Ltac munfold :=
  cbv [bind get ret throw modify emit console readAgent readArr writeAgent
       writeArr try_catch sendToRenderer event];
  cbn.

Lemma call_up (p : Push) (w : World) :
  service_up w -> call p w = (Return tt, w_log [ServiceCall p true] w).
Proof. intros H. unfold call. by rewrite H. Qed.

Lemma for_of_calls {A} (xs : list A) (f : A -> Settings -> Push)
    (w : World) :
  service_up w ->
  for_of xs (fun x w0 => call (f x (settings (state w0))) w0) w =
  (Return tt,
   w_log (map (fun x => ServiceCall (f x (settings (state w))) true) xs) w).
Proof.
  revert w. induction xs as [|x xs IH]; intros w Hup; simpl.
  - by rewrite w_log_nil.
  - munfold. rewrite call_up by done.
    rewrite IH by exact Hup. simpl. by rewrite w_log_app.
Qed.

Lemma for_of_calls_const {A} (xs : list A) (f : A -> Push) (w : World) :
  service_up w ->
  for_of xs (fun x => call (f x)) w =
  (Return tt, w_log (map (fun x => ServiceCall (f x) true) xs) w).
Proof.
  revert w. induction xs as [|x xs IH]; intros w Hup; simpl.
  - by rewrite w_log_nil.
  - munfold. rewrite call_up by done.
    rewrite IH by exact Hup. simpl. by rewrite w_log_app.
Qed.

Lemma configureEpicPolicy_up (agent : loc) (a : Agent) (w : World) :
  objs w !! agent = Some a ->
  service_up w ->
  configureEpicPolicy agent w =
  (Return tt, w_log (configure_effects a (settings (state w))) w).
Proof.
  intros Ha Hup. unfold configureEpicPolicy. munfold. rewrite Ha.
  rewrite call_up by exact Hup. simpl.
  unfold configure_effects, desired_policies.
  destruct (monitorAllGames (settings (state w))) eqn:Hall.
  - rewrite (for_of_calls _ (fun g s => CreatePolicy (a_id a)
                                           (gamePolicy g a s))) by exact Hup.
    cbn. unfold w_emit. rewrite !w_log_app. cbn.
    by rewrite map_map.
  - cbn. unfold w_emit. by rewrite !w_log_app.
Qed.

Lemma onAgentDiscovered_up (agent : loc) (a : Agent) (arr : list loc)
    (w : World) :
  objs w !! agent = Some a ->
  arrs w !! agents (state w) = Some arr ->
  service_up w ->
  onAgentDiscovered agent w =
  (Return tt,
   w_log (discover_effects agent a (settings (state w)) (ctx w))
         (w_arrs (<[agents (state w) := arr ++ [agent]]> (arrs w)) w)).
Proof.
  intros Ha Harr Hup. unfold onAgentDiscovered. munfold.
  rewrite Ha. cbn. rewrite Harr. cbn.
  erewrite configureEpicPolicy_up; [|exact Ha|exact Hup]. cbn.
  unfold discover_effects, w_emit.
  destruct (has_sendToRenderer (ctx w)); cbn;
    rewrite ?w_arrs_log, ?w_log_app; cbn; by rewrite ?app_nil_r.
Qed.

Lemma pushes_of_calls {A} (f : A -> Push) (xs : list A) :
  pushes_of (map (fun x => ServiceCall (f x) true) xs) = map f xs.
Proof.
  induction xs as [|x xs IH]; [reflexivity|].
  change (f x :: pushes_of (map (fun x => ServiceCall (f x) true) xs)
          = f x :: map f xs).
  by rewrite IH.
Qed.

Lemma pushes_of_configure_effects (a : Agent) (s : Settings) :
  pushes_of (configure_effects a s) =
  map (CreatePolicy (a_id a)) (desired_policies a s).
Proof.
  unfold configure_effects. rewrite !pushes_of_app.
  rewrite (pushes_of_calls (CreatePolicy (a_id a))).
  change (pushes_of [Console LOG (MsgConfiguring (a_hostname a)
                                     (a_platform a))]) with (@nil Push).
  change (pushes_of [Console LOG (MsgConfigured (a_hostname a))])
    with (@nil Push).
  by rewrite app_nil_r.
Qed.

Lemma pushes_of_discover_effects (agent : loc) (a : Agent) (s : Settings)
    (c : Context) :
  pushes_of (discover_effects agent a s c) =
  map (CreatePolicy (a_id a)) (desired_policies a s).
Proof.
  unfold discover_effects. rewrite !pushes_of_app.
  rewrite pushes_of_configure_effects.
  destruct (has_sendToRenderer c); by rewrite app_nil_r.
Qed.

Lemma linkAgent_extends (agentId childId : string) (st : Allow2State)
    (w : World) :
  allow2 w childId = Some st ->
  extends (only_pushes (update_with (epicAllowed st))) w
          (snd (linkAgent agentId childId w)).
Proof.
  intros Hst. unfold linkAgent. munfold.
  destruct (arrs w !! agents (state w)) as [arr|]; cbn; [|reflexivity].
  pose proof (find_agent_pure (fun a => String.eqb (a_id a) agentId) arr w)
    as Hpure.
  destruct (find_agent _ arr w) as [[[agent|]|e] w1]; cbn in *; subst w1;
    try reflexivity.
  destruct (objs w !! agent) as [a|]; cbn; [|reflexivity].
  rewrite Hst.
  destruct (updateEpicPolicy_logged agent st
              (w_objs (<[agent:=set_childId (Some childId) a]> (objs w)) w))
    as [t [E Ht]].
  destruct (updateEpicPolicy agent st _) as [[[]|e] w2]; cbn in *; subst w2;
    by exists t.
Qed.

Lemma updateQuotaStatus_logged (agentId childId : string) (st : Allow2State)
    (w : World) :
  allow2 w childId = Some st ->
  logged (only_pushes (update_with (EpicMonitor.allowed st))) w
         (snd (EpicMonitor.updateQuotaStatus agentId childId w)).
Proof.
  intros Hst. unfold EpicMonitor.updateQuotaStatus.
  unfold bind at 1. unfold get at 1. cbn beta iota. rewrite Hst.
  set (P := only_pushes (update_with (EpicMonitor.allowed st))).
  destruct (monitoredProcesses w !! agentId) as [processes|].
  - assert (H : respects (logged P)
      (console LOG (MsgQuota agentId (EpicMonitor.allowed st)) ;;
       for_of processes (fun process =>
         call (UpdatePolicy agentId (pr_name process)
                 (EpicMonitor.allowed st))))).
    { respects_auto; [by apply logged_console|].
      apply logged_call. intros ok. by eexists _, _. }
    apply H.
  - assert (H : respects (logged P)
      (console LOG (MsgQuota agentId (EpicMonitor.allowed st)) ;;
       console WARN (MsgNoMonitored agentId))).
    { respects_auto; by apply logged_console. }
    apply H.
Qed.

Lemma handleViolation_journal (vd : ViolationData) (clk : Clock)
    (w : World) :
  violations (state (snd (handleViolation vd clk w))) =
  journal_append (mkViolation vd clk) (violations (state w)).
Proof.
  unfold handleViolation. munfold.
  destruct (has_sendToRenderer (ctx w)), (has_logActivity (ctx w)); cbn;
    destruct (enableNotifications (settings (state w))),
      (has_notify (ctx w));
    reflexivity.
Qed.

Lemma record_all_journal (reports : list (ViolationData * Clock))
    (w : World) :
  violations (state (record_all reports w)) =
  append_all (map (fun r => mkViolation (fst r) (snd r)) reports)
             (violations (state w)).
Proof.
  revert w. induction reports as [|r reports IH]; intros w; [done|].
  change (record_all (r :: reports) w)
    with (record_all reports (snd (handleViolation (fst r) (snd r) w))).
  rewrite IH, handleViolation_journal. reflexivity.
Qed.

Lemma extends_modify P (f : World -> World) :
  (forall w, trace (f w) = trace w) -> respects (extends P) (modify f).
Proof.
  intros H. apply respects_modify. intros w. exists [].
  by rewrite H, app_nil_r.
Qed.

Lemma onAgentDiscovered_extends (agent : loc) :
  respects (extends (only_pushes deny_create)) (onAgentDiscovered agent).
Proof.
  unfold onAgentDiscovered, writeArr. respects_auto.
  - by apply respects_logged_extends, logged_console.
  - by apply extends_modify.
  - apply respects_logged_extends, configureEpicPolicy_logged.
  - by apply respects_logged_extends, logged_sendToRenderer.
Qed.

Lemma pushes_onAgentDiscovered_up (agent : loc) (a : Agent) (arr : list loc)
    (w : World) :
  objs w !! agent = Some a ->
  arrs w !! agents (state w) = Some arr ->
  service_up w ->
  pushes (onAgentDiscovered agent) w =
  map (CreatePolicy (a_id a)) (desired_policies a (settings (state w))).
Proof.
  intros Ha Harr Hup. unfold pushes.
  rewrite (effects_log _ w
             (discover_effects agent a (settings (state w)) (ctx w))).
  - apply pushes_of_discover_effects.
  - by rewrite (onAgentDiscovered_up agent a arr).
Qed.

(** ** Settings updates *)

Lemma updateSettings_unfold (newSettings : SettingsPatch) (w : World) :
  updateSettings newSettings w =
  match (if reconfigures newSettings then reconfigure else ret tt)
          (stored newSettings w) with
  | (Return _, w2) => (Return (SuccessSettings (settings (state w2))), w2)
  | (Throw e, w2) => (Throw e, w2)
  end.
Proof.
  unfold updateSettings, reconfigures, reconfigure, stored.
  unfold bind at 1. unfold modify at 1. cbn beta iota.
  unfold bind at 1.
  destruct (new_checkInterval newSettings) as [n|]; [|reflexivity].
  destruct (JS.truthy n); reflexivity.
Qed.

Lemma reconfigure_logged :
  respects (logged (only_pushes deny_create)) reconfigure.
Proof.
  unfold reconfigure. respects_auto. apply configureEpicPolicy_logged.
Qed.

Lemma reconfigure_up (rs : list loc) (agts : list Agent) (w : World) :
  Forall2 (fun r a => objs w !! r = Some a) rs agts ->
  service_up w ->
  for_of rs configureEpicPolicy w =
  (Return tt,
   w_log (concat (map (fun a => configure_effects a (settings (state w)))
                      agts)) w).
Proof.
  revert agts w. induction rs as [|r rs IH]; intros agts w Hrs Hup.
  - apply Forall2_nil_inv_l in Hrs as ->. cbn. by rewrite w_log_nil.
  - apply Forall2_cons_inv_l in Hrs as (a & agts' & Ha & Hrs & ->).
    cbn [for_of]. unfold bind at 1.
    rewrite (configureEpicPolicy_up r a) by done.
    rewrite (IH agts') by done.
    cbn. by rewrite w_log_app.
Qed.

Lemma updateSettings_logged (newSettings : SettingsPatch) (w : World) :
  logged (only_pushes deny_create) (stored newSettings w)
         (snd (updateSettings newSettings w)).
Proof.
  rewrite updateSettings_unfold.
  assert (H : respects (logged (only_pushes deny_create))
                (if reconfigures newSettings then reconfigure else ret tt)).
  { destruct (reconfigures newSettings);
      [apply reconfigure_logged | apply respects_ret, _]. }
  specialize (H (stored newSettings w)).
  by destruct ((if reconfigures newSettings then reconfigure else ret tt)
                 (stored newSettings w)) as [[[]|e] w2].
Qed.

(** The update leaves the merged settings in the plugin state, whatever
    happens to the calls it makes. *)
Lemma updateSettings_settings (newSettings : SettingsPatch) (w : World) :
  settings (state (snd (updateSettings newSettings w))) =
  spread (settings (state w)) newSettings.
Proof.
  destruct (updateSettings_logged newSettings w) as [t [-> _]]. reflexivity.
Qed.

Lemma updateSettings_pushes (newSettings : SettingsPatch) (w : World) :
  Forall deny_create (pushes (updateSettings newSettings) w).
Proof.
  destruct (updateSettings_logged newSettings w) as [t [E Ht]].
  unfold pushes. rewrite (effects_log _ w t); [|by rewrite E].
  by apply only_pushes_Forall.
Qed.

(** The handler resolves to a success carrying the merged settings or
    throws; it has no error result. *)
Lemma updateSettings_reply (newSettings : SettingsPatch) (w : World) :
  fst (updateSettings newSettings w) =
    Return (SuccessSettings (spread (settings (state w)) newSettings)) \/
  exists e, fst (updateSettings newSettings w) = Throw e.
Proof.
  pose proof (updateSettings_settings newSettings w) as Hs.
  rewrite updateSettings_unfold in *.
  destruct ((if reconfigures newSettings then reconfigure else ret tt)
              (stored newSettings w)) as [[[]|e] w2]; cbn in *.
  - left. by rewrite Hs.
  - right. by exists e.
Qed.

Lemma updateSettings_quiet (newSettings : SettingsPatch) (w : World) :
  reconfigures newSettings = false ->
  updateSettings newSettings w =
  (Return (SuccessSettings (spread (settings (state w)) newSettings)),
   stored newSettings w).
Proof. intros H. rewrite updateSettings_unfold, H. reflexivity. Qed.

Lemma updateSettings_up (newSettings : SettingsPatch) (rs : list loc)
    (agts : list Agent) (w : World) :
  reconfigures newSettings = true ->
  known_agents w rs agts ->
  service_up w ->
  let merged := spread (settings (state w)) newSettings in
  updateSettings newSettings w =
  (Return (SuccessSettings merged),
   w_log (concat (map (fun a => configure_effects a merged) agts))
         (stored newSettings w)).
Proof.
  intros Hre [Harr Hrs] Hup merged.
  rewrite updateSettings_unfold, Hre. unfold reconfigure. munfold.
  rewrite Harr. rewrite (reconfigure_up rs agts) by done. reflexivity.
Qed.

Lemma pushes_of_concat_configure (agts : list Agent) (s : Settings) :
  pushes_of (concat (map (fun a => configure_effects a s) agts)) =
  concat (map (fun a => map (CreatePolicy (a_id a)) (desired_policies a s))
              agts).
Proof.
  induction agts as [|a agts IH]; [reflexivity|].
  cbn [map concat]. by rewrite pushes_of_app, pushes_of_configure_effects, IH.
Qed.

(** ** Looking an agent up by identifier *)

Lemma find_agent_Some (p : Agent -> bool) (rs : list loc) (w : World)
    (r : loc) :
  fst (find_agent p rs w) = Return (Some r) ->
  exists a, objs w !! r = Some a /\ p a = true /\ r ∈ rs.
Proof.
  induction rs as [|r0 rs IH]; cbn; [discriminate|].
  unfold readAgent. munfold.
  destruct (objs w !! r0) as [a|] eqn:Ha; cbn; [|discriminate].
  destruct (p a) eqn:Hp; cbn.
  - intros [= <-]. exists a. repeat split; [done.. | constructor].
  - intros H. destruct (IH H) as (a' & ? & ? & ?).
    exists a'. repeat split; [done.. | by constructor].
Qed.

Lemma find_agent_None (p : Agent -> bool) (rs : list loc) (w : World) :
  fst (find_agent p rs w) = Return None ->
  Forall (fun r => exists a, objs w !! r = Some a /\ p a = false) rs.
Proof.
  induction rs as [|r0 rs IH]; cbn; [constructor|].
  unfold readAgent. munfold.
  destruct (objs w !! r0) as [a|] eqn:Ha; cbn; [|discriminate].
  destruct (p a) eqn:Hp; cbn; [discriminate|].
  intros H. constructor; [by exists a | by apply IH].
Qed.

(** ** Violation queries *)

Lemma getViolations_eq (limit : option Z) (w : World) :
  getViolations limit w =
  (Return (SuccessViolations
             (rev (JS.slice (- default 50 limit) (violations (state w))))),
   w).
Proof. reflexivity. Qed.


(** * The claims *)

(** C2.  The violation journal never holds more than 100 entries: after
    any non-empty sequence of appends by [handleViolation], from any
    world, the stored list has length at most 100; and after 100 + 5
    appends the stored list is exactly the last 100 appended violations,
    in insertion order (the 5 oldest are evicted). *)
Theorem journal_bounded_fifo (reports : list (ViolationData * Clock))
    (w : World) :
  let appended := map (fun r => mkViolation (fst r) (snd r)) reports in
  let journal := violations (state (record_all reports w)) in
  (reports <> [] -> (length journal <= 100)%nat) /\
  (length reports = (100 + 5)%nat ->
     journal = drop 5 appended /\ length journal = 100%nat).
Proof.
  cbn zeta. rewrite record_all_journal.
  set (appended := map _ reports).
  assert (Hlen : length appended = length reports)
    by (unfold appended; apply length_map).
  split.
  - intros Hne. rewrite append_all_last_n.
    + rewrite last_n_length. lia.
    + destruct reports; [done | discriminate].
  - intros H105. rewrite append_all_last_n
      by (destruct reports; [discriminate | discriminate]).
    unfold last_n. rewrite length_app, drop_app.
    rewrite drop_ge by lia. simpl.
    replace (length (violations (state w)) + length appended - 100
             - length (violations (state w)))%nat with 5%nat by lia.
    split; [done|]. rewrite length_drop. lia.
Qed.

(** C2 on 105 reports of the Fortnite client against the world in which
    agent A is known. *)
Lemma journal_bounded_fifo_witness :
  let reports :=
    map (fun n => (Sample.report "FortniteClient-Win64-Shipping.exe",
                   Sample.clock n)) (seq 0 105) in
  violations (state (record_all reports Sample.loaded_A)) =
  drop 5 (map (fun r => mkViolation (fst r) (snd r)) reports).
Proof.
  intros reports.
  apply (journal_bounded_fifo reports Sample.loaded_A). reflexivity.
Defined.

(** C3, as the claim states it, fails: discovering the win32 agent A
    with the initial settings creates four policies, not five, and none
    of them is a policy for the web helper or for the engine helper. *)
Lemma win32_discovery_not_five_policies :
  a_platform Sample.agentA = "win32" /\
  objs Sample.loaded_empty !! 0%nat = Some Sample.agentA /\
  created_names (pushes (handle (Discovered 0%nat)) Sample.loaded_empty) =
    [ "EpicGamesLauncher.exe"; "FortniteClient-Win64-Shipping.exe";
      "FortniteLauncher.exe"; "RocketLeague.exe" ] /\
  length (pushes (handle (Discovered 0%nat)) Sample.loaded_empty) <> 5%nat.
Proof. vm_compute. repeat split; discriminate. Qed.

(** C3, amended.  When an agent with platform "win32" is discovered,
    every policy created for it has allowed = false.  When no call is
    rejected and monitorAllGames is on, exactly four policies are
    created, in this order: the launcher main process
    EpicGamesLauncher.exe, which carries the web helper and the engine
    helper as alternative names only, FortniteClient-Win64-Shipping.exe,
    FortniteLauncher.exe and RocketLeague.exe; when monitorAllGames is
    off, only the launcher policy is created. *)
Theorem win32_discovery_policies (agent : loc) (a : Agent) (arr : list loc)
    (w : World) :
  objs w !! agent = Some a ->
  a_platform a = "win32" ->
  arrs w !! agents (state w) = Some arr ->
  service_up w ->
  let s := settings (state w) in
  Forall deny_create (pushes (onAgentDiscovered agent) w) /\
  pushes (onAgentDiscovered agent) w =
    map (CreatePolicy (a_id a))
        (launcherPolicy a s ::
         (if monitorAllGames s
          then [ gamePolicy "FortniteClient-Win64-Shipping.exe" a s;
                 gamePolicy "FortniteLauncher.exe" a s;
                 gamePolicy "RocketLeague.exe" a s ]
          else [])) /\
  p_processName (launcherPolicy a s) = "EpicGamesLauncher.exe" /\
  p_processAlternatives (launcherPolicy a s) =
    Some [ "EpicGamesLauncher.exe"; "EpicWebHelper.exe";
           "UnrealEngineLauncher-Win64-Shipping.exe" ].
Proof.
  intros Ha Hwin Harr Hup s. split; [|split; [|split]].
  - apply only_pushes_Forall, extends_effects, onAgentDiscovered_extends.
  - rewrite (pushes_onAgentDiscovered_up agent a arr) by done.
    unfold desired_policies. rewrite Hwin. reflexivity.
  - unfold launcherPolicy. rewrite Hwin. reflexivity.
  - unfold launcherPolicy. rewrite Hwin. reflexivity.
Qed.

(** C3 amended, on the discovery of agent A in the world loaded with no
    agent: four creates. *)
Lemma win32_discovery_policies_witness :
  length (pushes (onAgentDiscovered 0%nat) Sample.loaded_empty) = 4%nat.
Proof.
  destruct (win32_discovery_policies 0%nat Sample.agentA []
              Sample.loaded_empty) as (_ & Hpushes & _).
  - reflexivity.
  - reflexivity.
  - reflexivity.
  - intros n. reflexivity.
  - rewrite Hpushes. reflexivity.
Defined.

(** C4, as the claim states it, fails: with agent A known and its four
    policies created, turning monitorAllGames from true to false
    succeeds and calls the agent service not at all, so no game policy
    is deleted; with a check interval in the same update the only call
    is a create of the launcher policy, again no delete. *)
Lemma games_off_deletes_nothing :
  monitorAllGames (settings (state Sample.loaded_A)) = true /\
  fst (handle (UpdateSettings games_off) Sample.loaded_A) =
    Return (SuccessSettings
              {| monitorFortnite := true; monitorAllGames := false;
                 checkInterval := 30000; enableNotifications := true |}) /\
  pushes (handle (UpdateSettings games_off)) Sample.loaded_A = [] /\
  created_names
    (pushes (handle (UpdateSettings (games_off_interval 30000)))
            Sample.loaded_A) = [ "EpicGamesLauncher.exe" ] /\
  filter (fun p => is_delete p = true)
    (pushes (handle (UpdateSettings (games_off_interval 30000)))
            Sample.loaded_A) = [].
Proof. by vm_compute. Qed.

(** C4, amended.  A settings update computes no diff and never deletes a
    policy.  It stores the merged settings; every call it makes on the
    agent service is a create of a deny-by-default policy; an update
    without a non-zero check interval (such as one that only turns
    monitorAllGames off) makes no call at all; an update with a non-zero
    check interval, when no call is rejected, re-issues for every known
    agent, in list order, the creates of its full policy list under the
    merged settings (the launcher policy alone when monitorAllGames is
    off in the merged settings). *)
Theorem settings_update_creates_only (newSettings : SettingsPatch)
    (rs : list loc) (agts : list Agent) (w : World) :
  let merged := spread (settings (state w)) newSettings in
  settings (state (snd (updateSettings newSettings w))) = merged /\
  Forall deny_create (pushes (updateSettings newSettings) w) /\
  (reconfigures newSettings = false ->
     pushes (updateSettings newSettings) w = []) /\
  (reconfigures newSettings = true ->
   known_agents w rs agts ->
   service_up w ->
     pushes (updateSettings newSettings) w =
     concat (map (fun a => map (CreatePolicy (a_id a))
                               (desired_policies a merged)) agts)).
Proof.
  intros merged. split; [|split; [|split]].
  - apply updateSettings_settings.
  - apply updateSettings_pushes.
  - intros H. unfold pushes.
    rewrite (effects_log _ w []); [done|].
    rewrite updateSettings_quiet by done. cbn. by rewrite app_nil_r.
  - intros Hre Hknown Hup. unfold pushes.
    rewrite (effects_log _ w
               (concat (map (fun a => configure_effects a merged) agts))).
    + apply pushes_of_concat_configure.
    + by rewrite (updateSettings_up newSettings rs agts).
Qed.

(** C4 amended, on the update that turns monitorAllGames off and sets
    the check interval to 10 seconds, with agent A known: one create,
    of the launcher policy. *)
Lemma settings_update_creates_only_witness :
  created_names
    (pushes (updateSettings (games_off_interval 10000)) Sample.loaded_A) =
  [ "EpicGamesLauncher.exe" ].
Proof.
  destruct (settings_update_creates_only (games_off_interval 10000)
              [0%nat] [Sample.agentA] Sample.loaded_A)
    as (_ & _ & _ & Hpushes).
  rewrite Hpushes.
  - reflexivity.
  - reflexivity.
  - split; [reflexivity | repeat constructor].
  - intros n. reflexivity.
Defined.




(** While the agent list is still the array [onLoad] captured, a quota
    change reaches an agent discovered after initialization: agent B,
    discovered and linked to "kid" after the load, gets its three
    policies updated. *)
Lemma quota_change_reaches_agent_discovered_later :
  let w := run [Discovered 1%nat; LinkAgent "B" "kid"] Sample.loaded_A in
  closure_agents w = Some (agents (state w)) /\
  pushes (handle (StateChange "kid" paused10)) w =
  [ UpdatePolicy "B" "EpicGamesLauncher" false;
    UpdatePolicy "B" "FortniteClient-Linux-Shipping" false;
    UpdatePolicy "B" "RocketLeague" false ].
Proof. by vm_compute. Qed.

(** C6.  The code does not push a quota change to every known linked
    agent.  After agent A is lost, the agent list of the plugin is a new
    array, while the [stateChange] handler keeps filtering the array
    [onLoad] captured.  Agent B, discovered after the loss and linked to
    "kid", is known and linked, its policies were set to allowed by the
    link, and the change of "kid" to paused pushes nothing to it. *)
Theorem quota_change_skips_agent_discovered_after_loss :
  let w :=
    run [Lost "A"; Discovered 1%nat; LinkAgent "B" "kid"] Sample.loaded_A in
  arrs w !! agents (state w) = Some [1%nat] /\
  objs w !! 1%nat = Some (set_childId (Some "kid") Sample.agentB) /\
  closure_agents w = Some 2%nat /\
  arrs w !! 2%nat = Some [0%nat] /\
  agents (state w) <> 2%nat /\
  filter (fun p => is_update p = true) (pushes_of (trace w)) =
    [ UpdatePolicy "B" "EpicGamesLauncher" true;
      UpdatePolicy "B" "FortniteClient-Linux-Shipping" true;
      UpdatePolicy "B" "RocketLeague" true ] /\
  effects (handle (StateChange "kid" paused10)) w =
    [ Console LOG (MsgStateChanged "kid") ] /\
  pushes (handle (StateChange "kid" paused10)) w = [].
Proof. vm_compute. repeat split; discriminate. Qed.

(** The fan-out of a quota change is best effort: a rejected call ends
    the updates of that agent only.  With agents A and B both linked to
    "kid" and the first call of the change rejected, A's remaining
    updates are skipped, the failure is logged, and B's three updates
    are still made. *)
Lemma quota_change_continues_after_rejection :
  let w0 := run [Discovered 1%nat; LinkAgent "A" "kid"; LinkAgent "B" "kid"]
                Sample.loaded_A in
  let w := {| objs := objs w0; arrs := arrs w0; state := state w0;
              closure_agents := closure_agents w0; ipc := ipc w0;
              monitoredProcesses := monitoredProcesses w0; ctx := ctx w0;
              svc_outcome := fun n => negb (n =? calls_made w0)%nat;
              allow2 := allow2 w0; trace := trace w0 |} in
  effects (handle (StateChange "kid" paused10)) w =
  [ Console LOG (MsgStateChanged "kid");
    Console LOG (MsgUpdating "pc-a" false);
    ServiceCall (UpdatePolicy "A" "EpicGamesLauncher.exe" false) false;
    Console ERROR
      (MsgUpdateFailed "pc-a"
         (PushRejected (UpdatePolicy "A" "EpicGamesLauncher.exe" false)));
    Console LOG (MsgUpdating "pc-b" false);
    ServiceCall (UpdatePolicy "B" "EpicGamesLauncher" false) true;
    ServiceCall (UpdatePolicy "B" "FortniteClient-Linux-Shipping" false) true;
    ServiceCall (UpdatePolicy "B" "RocketLeague" false) true;
    Console LOG (MsgUpdated "pc-b") ].
Proof. by vm_compute. Qed.



(** C8, as the claim states it, fails: an update with check interval -5
    resolves to success, and the stored check interval, 30000 before,
    is -5 afterwards; likewise for 0. *)
Lemma negative_interval_is_stored :
  checkInterval (settings (state Sample.loaded_A)) = 30000 /\
  fst (handle (UpdateSettings (interval_only (-5))) Sample.loaded_A) =
    Return (SuccessSettings
              {| monitorFortnite := true; monitorAllGames := true;
                 checkInterval := -5; enableNotifications := true |}) /\
  checkInterval (settings (state
    (snd (handle (UpdateSettings (interval_only (-5))) Sample.loaded_A))))
    = -5 /\
  checkInterval (settings (state
    (snd (handle (UpdateSettings (interval_only 0)) Sample.loaded_A))))
    = 0.
Proof. by vm_compute. Qed.

(** C8, amended.  A settings update carrying a non-positive check
    interval is accepted: the merged settings, with the supplied check
    interval, are stored; the handler never resolves to an error result;
    a zero interval makes no call on the agent service and resolves to
    success with the merged settings; a negative interval, when no call
    is rejected, reconfigures every known agent with that interval (the
    policy list of each known agent is created again under the merged
    settings, every policy carrying the negative interval) and resolves
    to success with the merged settings. *)
Theorem nonpositive_interval_accepted (n : Z) (newSettings : SettingsPatch)
    (rs : list loc) (agts : list Agent) (w : World) :
  new_checkInterval newSettings = Some n ->
  n <= 0 ->
  let merged := spread (settings (state w)) newSettings in
  checkInterval merged = n /\
  settings (state (snd (updateSettings newSettings w))) = merged /\
  (forall error, fst (updateSettings newSettings w) <> Return (Failure error)) /\
  (n = 0 ->
     updateSettings newSettings w =
       (Return (SuccessSettings merged), stored newSettings w) /\
     pushes (updateSettings newSettings) w = []) /\
  (n < 0 ->
   known_agents w rs agts ->
   service_up w ->
     fst (updateSettings newSettings w) = Return (SuccessSettings merged) /\
     pushes (updateSettings newSettings) w =
       concat (map (fun a => map (CreatePolicy (a_id a))
                                 (desired_policies a merged)) agts) /\
     (forall a policy,
        In a agts -> In policy (desired_policies a merged) ->
        In (CreatePolicy (a_id a) policy)
           (pushes (updateSettings newSettings) w) /\
        p_checkInterval policy = n)).
Proof.
  intros Hn Hle merged.
  assert (Hmerged : checkInterval merged = n)
    by (unfold merged, spread; cbn; by rewrite Hn).
  split; [exact Hmerged|]. split; [|split; [|split]].
  - apply updateSettings_settings.
  - intros error H.
    destruct (updateSettings_reply newSettings w) as [E|[e E]];
      rewrite E in H; discriminate H.
  - intros ->.
    assert (Hq : reconfigures newSettings = false)
      by (unfold reconfigures; by rewrite Hn).
    split; [by apply updateSettings_quiet|].
    unfold pushes. rewrite (effects_log _ w []); [done|].
    rewrite updateSettings_quiet by done. cbn. by rewrite app_nil_r.
  - intros Hneg Hknown Hup.
    assert (Hre : reconfigures newSettings = true).
    { unfold reconfigures, JS.truthy. rewrite Hn.
      by destruct (Z.eqb_spec n 0); [lia|]. }
    pose proof (updateSettings_up newSettings rs agts w Hre Hknown Hup) as E.
    cbn zeta in E. fold merged in E.
    assert (Hp : pushes (updateSettings newSettings) w =
                 concat (map (fun a => map (CreatePolicy (a_id a))
                                           (desired_policies a merged)) agts)).
    { unfold pushes.
      rewrite (effects_log _ w
                 (concat (map (fun a => configure_effects a merged) agts)));
        [apply pushes_of_concat_configure | by rewrite E]. }
    split; [by rewrite E|]. split; [exact Hp|].
    intros a policy Ha Hpolicy. split.
    + rewrite Hp. apply in_concat.
      exists (map (CreatePolicy (a_id a)) (desired_policies a merged)).
      split; [|by apply in_map].
      apply (in_map (fun a => map (CreatePolicy (a_id a))
                                  (desired_policies a merged))), Ha.
    + unfold desired_policies in Hpolicy.
      destruct Hpolicy as [<-|Hgame]; [exact Hmerged|].
      destruct (monitorAllGames merged); [|destruct Hgame].
      apply in_map_iff in Hgame as (gameName & <- & _). exact Hmerged.
Qed.

(** C8 amended, on the update with check interval -5 and agent A
    known: the interval is stored and the four policies of A are created
    again. *)
Lemma nonpositive_interval_accepted_witness :
  checkInterval (settings (state
    (snd (updateSettings (interval_only (-5)) Sample.loaded_A)))) = -5 /\
  created_names (pushes (updateSettings (interval_only (-5))) Sample.loaded_A) =
    [ "EpicGamesLauncher.exe"; "FortniteClient-Win64-Shipping.exe";
      "FortniteLauncher.exe"; "RocketLeague.exe" ] /\
  In (CreatePolicy "A" (launcherPolicy Sample.agentA
        {| monitorFortnite := true; monitorAllGames := true;
           checkInterval := -5; enableNotifications := true |}))
     (pushes (updateSettings (interval_only (-5))) Sample.loaded_A).
Proof.
  assert (Hn : (-5 <= 0)%Z) by lia.
  destruct (nonpositive_interval_accepted (-5) (interval_only (-5))
              [0%nat] [Sample.agentA] Sample.loaded_A eq_refl Hn)
    as (Hmerged & Hstored & _ & _ & Hneg).
  split; [rewrite Hstored; exact Hmerged|].
  destruct Hneg as (_ & Hpushes & Heach).
  - lia.
  - split; [reflexivity | repeat constructor].
  - intros n. reflexivity.
  - split; [rewrite Hpushes; reflexivity|].
    apply (Heach Sample.agentA); [by left | by left].
Defined.

(** C9.  Unlinking an agent the plugin knows (the lookup by identifier
    over the agent list finds an agent object) resolves to success and
    sets the entity binding of that object to null; everything else is
    as before: the object's other fields, every other agent object, the
    agent arrays, the plugin state and the trace, so no call is made on
    the agent service and no policy is touched.  Unlinking an unknown
    agent (the lookup finds none) resolves to the error "Agent not
    found" and changes nothing. *)
Theorem unlink_clears_binding_only (agentId : string) (rs : list loc)
    (w : World) :
  arrs w !! agents (state w) = Some rs ->
  let w' := snd (unlinkAgent agentId w) in
  (forall agent,
     fst (find_agent (fun a => String.eqb (a_id a) agentId) rs w)
       = Return (Some agent) ->
     exists a,
       objs w !! agent = Some a /\ a_id a = agentId /\
       fst (unlinkAgent agentId w) = Return Success /\
       w' = w_objs (<[agent := set_childId None a]> (objs w)) w /\
       objs w' !! agent =
         Some {| a_id := a_id a; a_hostname := a_hostname a;
                 a_platform := a_platform a; a_online := a_online a;
                 a_childId := None |} /\
       (forall other, other <> agent -> objs w' !! other = objs w !! other) /\
       arrs w' = arrs w /\ state w' = state w /\ trace w' = trace w /\
       pushes (unlinkAgent agentId) w = []) /\
  (fst (find_agent (fun a => String.eqb (a_id a) agentId) rs w)
     = Return None ->
   unlinkAgent agentId w = (Return (Failure "Agent not found"), w)).
Proof.
  intros Harr w'. split.
  - intros agent Hfind.
    destruct (find_agent_Some _ rs w agent Hfind) as (a & Ha & Hid & _).
    apply String.eqb_eq in Hid.
    assert (E : unlinkAgent agentId w =
                (Return Success,
                 w_objs (<[agent := set_childId None a]> (objs w)) w)).
    { unfold unlinkAgent. munfold. rewrite Harr. cbn.
      pose proof (find_agent_pure (fun a => String.eqb (a_id a) agentId)
                                  rs w) as Hpure.
      destruct (find_agent _ rs w) as [o w1]. cbn in *. subst w1 o.
      cbn. by rewrite Ha. }
    exists a. unfold w', pushes, effects. rewrite E. cbn.
    repeat split; try done.
    + apply lookup_insert_eq.
    + intros other Hne. by apply lookup_insert_ne.
    + by rewrite drop_all.
  - intros Hfind. unfold unlinkAgent. munfold. rewrite Harr. cbn.
    pose proof (find_agent_pure (fun a => String.eqb (a_id a) agentId)
                                rs w) as Hpure.
    destruct (find_agent _ rs w) as [o w1]. cbn in *. by subst w1 o.
Qed.

(** C9 on agent A after it was linked to "kid", and on the identifier
    "Z" no agent has. *)
Lemma unlink_clears_binding_only_witness :
  let w := run [LinkAgent "A" "kid"] Sample.loaded_A in
  (a_childId <$> objs w !! 0%nat) = Some (Some "kid") /\
  (a_childId <$> objs (snd (unlinkAgent "A" w)) !! 0%nat) = Some None /\
  pushes (unlinkAgent "A") w = [] /\
  unlinkAgent "Z" w = (Return (Failure "Agent not found"), w).
Proof.
  intros w.
  destruct (unlink_clears_binding_only "A" [0%nat] w eq_refl)
    as (Hknown & _).
  destruct (Hknown 0%nat eq_refl)
    as (a & Ha & _ & _ & _ & Hcleared & _ & _ & _ & _ & Hpushes).
  destruct (unlink_clears_binding_only "Z" [0%nat] w eq_refl)
    as (_ & Hunknown).
  split; [reflexivity|]. split; [by rewrite Hcleared|].
  split; [exact Hpushes|]. apply Hunknown. reflexivity.
Defined.









(** * Further properties of the code *)

(** ** Calls under an arbitrary agent service *)

Lemma calls_made_log (t : list Effect) (w : World) :
  calls_made (w_log t w) = (calls_made w + length (pushes_of t))%nat.
Proof. unfold calls_made. cbn. by rewrite pushes_of_app, length_app. Qed.

Lemma call_eq (p : Push) (w : World) :
  call p w =
  ((if svc_outcome w (calls_made w) then Return tt
    else Throw (PushRejected p)),
   w_log [ServiceCall p (svc_outcome w (calls_made w))] w).
Proof. reflexivity. Qed.

Lemma for_of_attempt {A} (xs : list A) (f : A -> Settings -> Push)
    (w : World) :
  for_of xs (fun x w0 => call (f x (settings (state w0))) w0) w =
  let r := attempt (svc_outcome w) (calls_made w)
                   (map (fun x => f x (settings (state w))) xs) in
  (fst r, w_log (snd r) w).
Proof.
  revert w. induction xs as [|x xs IH]; intros w; cbn [for_of map attempt].
  - cbn. by rewrite w_log_nil.
  - unfold bind at 1. rewrite call_eq.
    destruct (svc_outcome w (calls_made w)) eqn:Hok; [|reflexivity].
    rewrite IH. cbn zeta. rewrite calls_made_log.
    change (length (pushes_of [ServiceCall (f x (settings (state w))) true]))
      with 1%nat.
    rewrite Nat.add_1_r. cbn. by rewrite w_log_app.
Qed.

Lemma attempt_prefix (oracle : nat -> bool) (n : nat) (ps : list Push) :
  pushes_of (snd (attempt oracle n ps)) `prefix_of` ps.
Proof.
  revert n. induction ps as [|p ps IH]; intros n; cbn [attempt].
  - done.
  - destruct (oracle n); cbn.
    + apply prefix_cons, IH.
    + apply prefix_cons, prefix_nil.
Qed.

Lemma attempt_Return (oracle : nat -> bool) (n : nat) (ps : list Push) r :
  fst (attempt oracle n ps) = Return r ->
  snd (attempt oracle n ps) = map (fun p => ServiceCall p true) ps.
Proof.
  revert n. induction ps as [|p ps IH]; intros n; cbn [attempt]; [done|].
  destruct (oracle n); cbn; [|discriminate].
  intros H. by rewrite IH.
Qed.

Lemma attempt_Throw (oracle : nat -> bool) (n : nat) (ps : list Push)
    (e : Exn) :
  fst (attempt oracle n ps) = Throw e ->
  exists p, e = PushRejected p /\
            last (snd (attempt oracle n ps)) = Some (ServiceCall p false) /\
            last (pushes_of (snd (attempt oracle n ps))) = Some p.
Proof.
  revert n. induction ps as [|p ps IH]; intros n; cbn [attempt];
    [discriminate|].
  destruct (oracle n); cbn [fst snd].
  - intros H. destruct (IH _ H) as (q & -> & Hl & Hp). exists q.
    split; [done|]. split.
    + by rewrite last_cons, Hl.
    + change (pushes_of (ServiceCall p true :: snd (attempt oracle (S n) ps)))
        with (p :: pushes_of (snd (attempt oracle (S n) ps))).
      by rewrite last_cons, Hp.
  - intros [= <-]. by exists p.
Qed.

Lemma attempt_up (oracle : nat -> bool) (n : nat) (ps : list Push) :
  (forall k, oracle k = true) ->
  attempt oracle n ps = (Return tt, map (fun p => ServiceCall p true) ps).
Proof.
  intros Hup. revert n. induction ps as [|p ps IH]; intros n;
    cbn [attempt]; [done|].
  by rewrite Hup, IH.
Qed.

Lemma calls_made_console lvl msg (w : World) :
  calls_made (w_log [Console lvl msg] w) = calls_made w.
Proof. rewrite calls_made_log. apply Nat.add_0_r. Qed.

Lemma calls_made_call p ok (w : World) :
  calls_made (w_log [ServiceCall p ok] w) = S (calls_made w).
Proof. rewrite calls_made_log. apply Nat.add_1_r. Qed.

(** [configureEpicPolicy] under any behaviour of the agent service. *)
Lemma configureEpicPolicy_attempt (agent : loc) (a : Agent) (w : World) :
  objs w !! agent = Some a ->
  configureEpicPolicy agent w =
  let r := attempt (svc_outcome w) (calls_made w)
             (map (CreatePolicy (a_id a))
                  (desired_policies a (settings (state w)))) in
  (fst r,
   w_log ([Console LOG (MsgConfiguring (a_hostname a) (a_platform a))] ++
          snd r ++
          [match fst r with
           | Return _ => Console LOG (MsgConfigured (a_hostname a))
           | Throw e => Console ERROR (MsgConfigureFailed (a_hostname a) e)
           end]) w).
Proof.
  intros Ha. unfold configureEpicPolicy. munfold. rewrite Ha.
  rewrite call_eq. unfold w_emit. rewrite calls_made_console.
  unfold desired_policies. cbn [map attempt svc_outcome w_log].
  destruct (svc_outcome w (calls_made w)) eqn:Hok; cbn [fst snd].
  - cbn [state w_log settings].
    destruct (monitorAllGames (settings (state w))) eqn:Hall.
    + rewrite (for_of_attempt _ (fun g s => CreatePolicy (a_id a)
                                              (gamePolicy g a s))).
      cbn zeta. rewrite calls_made_call, calls_made_console.
      cbn [svc_outcome w_log state settings]. rewrite map_map.
      destruct (attempt _ _ _) as [[[]|e] t]; cbn [fst snd];
        rewrite !w_log_app; reflexivity.
    + cbn [map attempt fst snd]. by rewrite !w_log_app.
  - by rewrite !w_log_app.
Qed.

Lemma for_of_attempt_const {A} (xs : list A) (f : A -> Push) (w : World) :
  for_of xs (fun x => call (f x)) w =
  let r := attempt (svc_outcome w) (calls_made w) (map f xs) in
  (fst r, w_log (snd r) w).
Proof. apply (for_of_attempt xs (fun x _ => f x)). Qed.

(** [updateEpicPolicy] under any behaviour of the agent service. *)
Lemma updateEpicPolicy_attempt (agent : loc) (a : Agent) (st : Allow2State)
    (w : World) :
  objs w !! agent = Some a ->
  updateEpicPolicy agent st w =
  let r := attempt (svc_outcome w) (calls_made w)
             (desired_updates a (settings (state w)) (epicAllowed st)) in
  (Return tt,
   w_log ([Console LOG (MsgUpdating (a_hostname a) (epicAllowed st))] ++
          snd r ++
          [match fst r with
           | Return _ => Console LOG (MsgUpdated (a_hostname a))
           | Throw e => Console ERROR (MsgUpdateFailed (a_hostname a) e)
           end]) w).
Proof.
  intros Ha. unfold updateEpicPolicy. munfold. rewrite Ha.
  rewrite call_eq. unfold w_emit. rewrite calls_made_console.
  unfold desired_updates, desired_policies.
  cbn [map attempt svc_outcome w_log].
  change (p_processName (launcherPolicy a (settings (state w))))
    with (nth 0 (launcher (getEpicProcessNames (a_platform a))) "").
  destruct (svc_outcome w (calls_made w)) eqn:Hok; cbn [fst snd].
  - cbn [state w_log settings].
    destruct (monitorAllGames (settings (state w))) eqn:Hall.
    + rewrite for_of_attempt_const.
      cbn zeta. rewrite calls_made_call, calls_made_console.
      cbn [svc_outcome w_log state settings]. rewrite !map_map. cbn.
      destruct (attempt _ _ _) as [[[]|e] t]; cbn [fst snd];
        rewrite !w_log_app; reflexivity.
    + cbn [map attempt fst snd]. by rewrite !w_log_app.
  - by rewrite !w_log_app.
Qed.

(** ** Reading the agent list *)

Lemma known_pairs_Forall (w : World) (ras : list (loc * Agent)) :
  Forall2 (fun r a => objs w !! r = Some a) (map fst ras) (map snd ras) <->
  Forall (fun ra => objs w !! fst ra = Some (snd ra)) ras.
Proof.
  induction ras as [|[r a] ras IH]; cbn.
  - split; constructor.
  - split.
    + intros H. apply Forall2_cons_1 in H as [? ?]. constructor; [done|].
      by apply IH.
    + intros H. apply Forall_cons_1 in H as [? ?]. constructor; [done|].
      by apply IH.
Qed.

Lemma read_agents_known (ras : list (loc * Agent)) (w : World) :
  Forall (fun ra => objs w !! fst ra = Some (snd ra)) ras ->
  read_agents (map fst ras) w = (Return (map snd ras), w).
Proof.
  induction 1 as [|[r a] ras Ha _ IH]; [reflexivity|].
  cbn [map read_agents fst snd] in *. unfold readAgent. munfold.
  rewrite Ha. cbn. by rewrite IH.
Qed.

Lemma filter_agents_known (p : Agent -> bool) (ras : list (loc * Agent))
    (w : World) :
  Forall (fun ra => objs w !! fst ra = Some (snd ra)) ras ->
  filter_agents p (map fst ras) w =
  (Return (map fst (List.filter (fun ra => p (snd ra)) ras)), w).
Proof.
  induction 1 as [|[r a] ras Ha _ IH]; [reflexivity|].
  cbn [map filter_agents List.filter fst snd] in *. unfold readAgent. munfold.
  rewrite Ha. cbn. rewrite IH. by destruct (p a).
Qed.

Lemma find_agent_known (p : Agent -> bool) (ras : list (loc * Agent))
    (w : World) :
  Forall (fun ra => objs w !! fst ra = Some (snd ra)) ras ->
  find_agent p (map fst ras) w =
  (Return (fst <$> List.find (fun ra => p (snd ra)) ras), w).
Proof.
  induction 1 as [|[r a] ras Ha _ IH]; [reflexivity|].
  cbn [map find_agent List.find fst snd] in *. unfold readAgent. munfold.
  rewrite Ha. cbn. destruct (p a); [reflexivity | exact IH].
Qed.

Lemma find_filtered_out {A} (p : A -> bool) (l : list A) :
  List.find p (List.filter (fun x => negb (p x)) l) = None.
Proof.
  induction l as [|x l IH]; [reflexivity|]. cbn.
  destruct (p x) eqn:Hp; cbn; [exact IH | by rewrite Hp].
Qed.

Lemma filter_known (w : World) (p : loc * Agent -> bool)
    (ras : list (loc * Agent)) :
  Forall (fun ra => objs w !! fst ra = Some (snd ra)) ras ->
  Forall (fun ra => objs w !! fst ra = Some (snd ra)) (List.filter p ras).
Proof.
  induction 1 as [|ra ras Ha _ IH]; cbn; [constructor|].
  destruct (p ra); [by constructor | done].
Qed.

(** The reference of a new array is not the reference of an array in
    use. *)
Lemma fresh_array (w : World) (r : loc) (l : list loc) :
  arrs w !! r = Some l -> fresh (dom (arrs w)) <> r.
Proof.
  intros Hr E. apply (is_fresh (dom (arrs w))). rewrite E.
  apply elem_of_dom. by exists l.
Qed.

(** [agentLost] when every reference of the agent list denotes an agent
    object. *)
Lemma onAgentLost_known (agentId : string) (ras : list (loc * Agent))
    (w : World) :
  known_pairs w ras ->
  let kept := List.filter
                (fun ra => negb (String.eqb (a_id (snd ra)) agentId)) ras in
  let r := fresh (dom (arrs w)) in
  onAgentLost agentId w =
  (Return tt,
   w_log ([Console LOG (MsgLost agentId)] ++
          (if has_sendToRenderer (ctx w)
           then [SendToRenderer "epicAgentLost" (AgentLost agentId)]
           else []))
         (w_state (st_agents r (state w))
            (w_arrs (<[r := map fst kept]> (arrs w)) w))).
Proof.
  intros [Harr Hobjs] kept r. apply known_pairs_Forall in Hobjs.
  unfold onAgentLost, allocArr. munfold. rewrite Harr. cbn.
  rewrite (filter_agents_known _ ras) by exact Hobjs. cbn.
  unfold w_emit.
  destruct (has_sendToRenderer (ctx w)); cbn; f_equal;
    unfold w_log, w_state, w_arrs; cbn; f_equal;
    by rewrite <- ?app_assoc.
Qed.

Lemma pushes_of_framed (e1 e2 : Effect) (t : list Effect) :
  pushes_of [e1] = [] -> pushes_of [e2] = [] ->
  pushes_of ([e1] ++ t ++ [e2]) = pushes_of t.
Proof.
  intros H1 H2. rewrite !pushes_of_app, H1, H2. cbn. apply app_nil_r.
Qed.

Lemma effects_eq {A} (m : M A) (w w0 : World) (r : Outcome A)
    (t : list Effect) :
  m w = (r, w_log t w0) -> trace w0 = trace w -> effects m w = t.
Proof.
  intros E Ht. apply effects_log. rewrite E. cbn. by rewrite Ht.
Qed.

(** ** Creating and updating the policies of one agent *)

(** X1.  [configureEpicPolicy] stops at the first rejected call and
    rethrows it: whatever the agent service does, the creates it makes
    are an initial segment of the agent's policy list; when it returns
    normally, it made all of them; when it throws, the exception is the
    rejection of the last call made, logged as the last effect; and it
    changes nothing but the trace. *)
Theorem configure_stops_at_first_rejection (agent : loc) (a : Agent)
    (w : World) :
  objs w !! agent = Some a ->
  let wanted := map (CreatePolicy (a_id a))
                    (desired_policies a (settings (state w))) in
  let made := pushes (configureEpicPolicy agent) w in
  made `prefix_of` wanted /\
  snd (configureEpicPolicy agent w)
    = w_log (effects (configureEpicPolicy agent) w) w /\
  (fst (configureEpicPolicy agent w) = Return tt -> made = wanted) /\
  (forall e, fst (configureEpicPolicy agent w) = Throw e ->
     exists p, e = PushRejected p /\ last made = Some p /\
               last (effects (configureEpicPolicy agent) w) =
               Some (Console ERROR (MsgConfigureFailed (a_hostname a) e))).
Proof.
  intros Ha wanted made.
  pose proof (configureEpicPolicy_attempt agent a w Ha) as E.
  cbn zeta in E. fold wanted in E.
  set (r := attempt (svc_outcome w) (calls_made w) wanted) in E.
  assert (Heff : effects (configureEpicPolicy agent) w =
    [Console LOG (MsgConfiguring (a_hostname a) (a_platform a))] ++
    snd r ++
    [match fst r with
     | Return _ => Console LOG (MsgConfigured (a_hostname a))
     | Throw e => Console ERROR (MsgConfigureFailed (a_hostname a) e)
     end]) by (by apply (effects_eq _ w w (fst r))).
  assert (Hmade : made = pushes_of (snd r)).
  { unfold made, pushes. rewrite Heff.
    apply pushes_of_framed; [done | by destruct (fst r)]. }
  assert (Hpre : pushes_of (snd r) `prefix_of` wanted)
    by apply attempt_prefix.
  assert (Hret : forall u, fst r = Return u ->
                 snd r = map (fun p => ServiceCall p true) wanted)
    by (intros u; apply attempt_Return).
  assert (Hthr : forall e, fst r = Throw e ->
                 exists p, e = PushRejected p /\
                           last (snd r) = Some (ServiceCall p false) /\
                           last (pushes_of (snd r)) = Some p)
    by (intros e; apply attempt_Throw).
  clearbody r. rewrite E. cbn [fst snd].
  split; [|split; [|split]].
  - by rewrite Hmade.
  - by rewrite Heff.
  - intros Hr. rewrite Hmade, (Hret _ Hr).
    rewrite (pushes_of_calls (fun p : Push => p) wanted). apply map_id.
  - intros e Hr. destruct (Hthr _ Hr) as (p & -> & _ & Hlast).
    exists p. split; [done|]. split; [by rewrite Hmade|].
    rewrite Heff, Hr, !app_assoc. apply last_snoc.
Qed.

(** X1 on agent A with a service that rejects its second call: two
    creates are made, the second is rethrown. *)
Lemma configure_stops_at_first_rejection_witness :
  let w := with_outcome (rejects_only (S (calls_made Sample.loaded_A)))
                        Sample.loaded_A in
  created_names (pushes (configureEpicPolicy 0%nat) w) =
    [ "EpicGamesLauncher.exe"; "FortniteClient-Win64-Shipping.exe" ] /\
  exists p, fst (configureEpicPolicy 0%nat w) = Throw (PushRejected p) /\
            last (pushes (configureEpicPolicy 0%nat) w) = Some p.
Proof.
  intros w.
  assert (Ha : objs w !! 0%nat = Some Sample.agentA)
    by (vm_compute; reflexivity).
  destruct (configure_stops_at_first_rejection 0%nat Sample.agentA w Ha)
    as (_ & _ & _ & Hthrow).
  split; [vm_compute; reflexivity|].
  assert (Hf : exists e, fst (configureEpicPolicy 0%nat w) = Throw e)
    by (vm_compute; eexists; reflexivity).
  destruct Hf as [e Hf].
  destruct (Hthrow e Hf) as (p & Hp & Hlast & _).
  exists p. split; [by rewrite <- Hp | exact Hlast].
Defined.

Lemma updateEpicPolicy_pushes (agent : loc) (a : Agent) (st : Allow2State)
    (w : World) :
  objs w !! agent = Some a ->
  pushes (updateEpicPolicy agent st) w `prefix_of`
    desired_updates a (settings (state w)) (epicAllowed st) /\
  (service_up w ->
     pushes (updateEpicPolicy agent st) w =
     desired_updates a (settings (state w)) (epicAllowed st)).
Proof.
  intros Ha.
  pose proof (updateEpicPolicy_attempt agent a st w Ha) as E.
  cbn zeta in E.
  set (wanted := desired_updates a (settings (state w)) (epicAllowed st))
    in *.
  set (r := attempt (svc_outcome w) (calls_made w) wanted) in E.
  assert (Hmade : pushes (updateEpicPolicy agent st) w = pushes_of (snd r)).
  { unfold pushes. rewrite (effects_eq _ w w _ _ E eq_refl).
    apply pushes_of_framed; [done | by destruct (fst r)]. }
  split.
  - rewrite Hmade. apply attempt_prefix.
  - intros Hup. rewrite Hmade. unfold r. rewrite attempt_up by exact Hup.
    cbn [snd].
    rewrite (pushes_of_calls (fun p : Push => p) wanted). apply map_id.
Qed.

Lemma updated_names_desired (a : Agent) (s : Settings) (b : bool) :
  updated_names (desired_updates a s b) =
  created_names (map (CreatePolicy (a_id a)) (desired_policies a s)).
Proof.
  unfold desired_updates.
  induction (desired_policies a s) as [|p l IH]; [reflexivity|].
  cbn [map].
  change (p_processName p :: updated_names
            (map (fun p => UpdatePolicy (a_id a) (p_processName p) b) l) =
          p_processName p :: created_names (map (CreatePolicy (a_id a)) l)).
  by rewrite IH.
Qed.

(** X2.  [updateEpicPolicy] never throws, whatever the agent service
    does; the updates it makes are an initial segment of one update per
    policy that [configureEpicPolicy] creates under the same settings,
    with the same process names in the same order; and when no call is
    rejected it updates exactly the policies [configureEpicPolicy]
    creates. *)
Theorem update_targets_configured_policies (agent : loc) (a : Agent)
    (st : Allow2State) (w : World) :
  objs w !! agent = Some a ->
  fst (updateEpicPolicy agent st w) = Return tt /\
  pushes (updateEpicPolicy agent st) w `prefix_of`
    desired_updates a (settings (state w)) (epicAllowed st) /\
  (service_up w ->
     pushes (updateEpicPolicy agent st) w =
       desired_updates a (settings (state w)) (epicAllowed st) /\
     updated_names (pushes (updateEpicPolicy agent st) w) =
       created_names (pushes (configureEpicPolicy agent) w)).
Proof.
  intros Ha.
  destruct (updateEpicPolicy_pushes agent a st w Ha) as [Hpre Hall].
  split; [by apply (updateEpicPolicy_returns agent a)|].
  split; [exact Hpre|]. intros Hup. split; [by apply Hall|].
  rewrite (Hall Hup), updated_names_desired. f_equal. unfold pushes.
  rewrite (effects_eq _ w w _ _ (configureEpicPolicy_up agent a w Ha Hup)
             eq_refl).
  symmetry. apply pushes_of_configure_effects.
Qed.

(** X2 on agent A with every call resolving: a quota change updates the
    four policies created for A. *)
Lemma update_targets_configured_policies_witness :
  updated_names (pushes (updateEpicPolicy 0%nat paused10) Sample.loaded_A) =
  created_names (pushes (configureEpicPolicy 0%nat) Sample.loaded_A).
Proof.
  destruct (update_targets_configured_policies 0%nat Sample.agentA paused10
              Sample.loaded_A eq_refl) as (_ & _ & Hup).
  apply Hup. intros n. reflexivity.
Defined.

(** ** Losing, linking and unlinking agents *)

Lemma unlinkAgent_eval (agentId : string) (rs : list loc) (w : World) :
  arrs w !! agents (state w) = Some rs ->
  unlinkAgent agentId w =
  match fst (find_agent (fun a => String.eqb (a_id a) agentId) rs w) with
  | Return (Some agent) =>
      match objs w !! agent with
      | Some a =>
          (Return Success,
           w_objs (<[agent := set_childId None a]> (objs w)) w)
      | None => (Throw TypeError, w)
      end
  | Return None => (Return (Failure "Agent not found"), w)
  | Throw e => (Throw e, w)
  end.
Proof.
  intros Harr. unfold unlinkAgent. munfold. rewrite Harr. cbn.
  pose proof (find_agent_pure (fun a => String.eqb (a_id a) agentId) rs w)
    as Hpure.
  destruct (find_agent _ rs w) as [[[agent|]|e] w1]; cbn in *; subst w1;
    try reflexivity.
  by destruct (objs w !! agent).
Qed.

Lemma linkAgent_eval (agentId childId : string) (rs : list loc)
    (w : World) :
  arrs w !! agents (state w) = Some rs ->
  linkAgent agentId childId w =
  match fst (find_agent (fun a => String.eqb (a_id a) agentId) rs w) with
  | Return (Some agent) =>
      match objs w !! agent with
      | Some a =>
          let w1 :=
            w_objs (<[agent := set_childId (Some childId) a]> (objs w)) w in
          match allow2 w childId with
          | Some st => (Return Success, snd (updateEpicPolicy agent st w1))
          | None => (Throw (QuotaUnavailable childId), w1)
          end
      | None => (Throw TypeError, w)
      end
  | Return None => (Return (Failure "Agent not found"), w)
  | Throw e => (Throw e, w)
  end.
Proof.
  intros Harr. unfold linkAgent. munfold. rewrite Harr. cbn.
  pose proof (find_agent_pure (fun a => String.eqb (a_id a) agentId) rs w)
    as Hpure.
  destruct (find_agent _ rs w) as [[[agent|]|e] w1]; cbn in *; subst w1;
    try reflexivity.
  destruct (objs w !! agent) as [a|] eqn:Ha; cbn; [|reflexivity].
  destruct (allow2 w childId) as [st|]; [|reflexivity].
  pose proof (updateEpicPolicy_returns agent (set_childId (Some childId) a) st
    (w_objs (<[agent:=set_childId (Some childId) a]> (objs w)) w)) as Hret.
  destruct (updateEpicPolicy agent st _) as [[[]|e] w2]; cbn in *.
  - reflexivity.
  - specialize (Hret (lookup_insert_eq _ _ _)). discriminate Hret.
Qed.

Lemma first_with_id_found (agentId : string) (ras : list (loc * Agent))
    (r : loc) (a : Agent) (w : World) :
  Forall (fun ra => objs w !! fst ra = Some (snd ra)) ras ->
  first_with_id agentId ras = Some (r, a) ->
  objs w !! r = Some a /\ a_id a = agentId.
Proof.
  intros Hobjs Hfind. apply find_some in Hfind as [Hin Hid].
  rewrite Forall_forall in Hobjs. split.
  - apply (Hobjs (r, a)). by apply list_elem_of_In.
  - by apply String.eqb_eq in Hid.
Qed.

Lemma onAgentLost_known_pairs (agentId : string) (ras : list (loc * Agent))
    (w : World) :
  known_pairs w ras ->
  known_pairs (snd (onAgentLost agentId w)) (without_agent agentId ras).
Proof.
  intros Hknown.
  rewrite (onAgentLost_known agentId ras w Hknown). cbn [snd].
  destruct Hknown as [Harr Hobjs]. apply known_pairs_Forall in Hobjs.
  split.
  - cbn. apply lookup_insert_eq.
  - apply known_pairs_Forall. cbn. by apply filter_known.
Qed.

(** X3.  When an agent is lost, the plugin's agent list becomes a new
    array holding, in the same order, the agents whose identifier is not
    the lost one; the agent objects and the array held before are not
    modified, no call is made on the agent service (the policies of the
    lost agent are not deleted), and linking or unlinking the lost
    identifier afterwards fails with "Agent not found". *)
Theorem agent_lost_drops_it_from_the_list (agentId childId : string)
    (ras : list (loc * Agent)) (w : World) :
  known_pairs w ras ->
  let w' := snd (onAgentLost agentId w) in
  fst (onAgentLost agentId w) = Return tt /\
  known_pairs w' (without_agent agentId ras) /\
  agents (state w') <> agents (state w) /\
  arrs w' !! agents (state w) = Some (map fst ras) /\
  objs w' = objs w /\
  pushes (onAgentLost agentId) w = [] /\
  unlinkAgent agentId w' = (Return (Failure "Agent not found"), w') /\
  linkAgent agentId childId w' = (Return (Failure "Agent not found"), w').
Proof.
  intros Hknown w'.
  pose proof (onAgentLost_known agentId ras w Hknown) as E. cbn zeta in E.
  destruct Hknown as [Harr Hobjs]. apply known_pairs_Forall in Hobjs.
  fold (without_agent agentId ras) in E.
  assert (Hfresh : fresh (dom (arrs w)) <> agents (state w))
    by (by apply (fresh_array w _ (map fst ras))).
  assert (Hw' : w' = snd (onAgentLost agentId w)) by reflexivity.
  rewrite E in Hw'. cbn [snd] in Hw'.
  assert (Harr' : arrs w' !! agents (state w')
                  = Some (map fst (without_agent agentId ras)))
    by (rewrite Hw'; cbn; apply lookup_insert_eq).
  assert (Hobjs' : Forall (fun ra => objs w' !! fst ra = Some (snd ra))
                          (without_agent agentId ras)).
  { rewrite Hw'. cbn. by apply filter_known. }
  assert (Hnone : fst (find_agent (fun a => String.eqb (a_id a) agentId)
                         (map fst (without_agent agentId ras)) w')
                  = Return None).
  { rewrite (find_agent_known _ _ w' Hobjs'). cbn [fst].
    unfold without_agent.
    by rewrite (find_filtered_out
                  (fun ra => String.eqb (a_id (snd ra)) agentId)). }
  split; [by rewrite E|]. split; [|split; [|split; [|split; [|split]]]].
  - split; [exact Harr' | by apply known_pairs_Forall].
  - rewrite Hw'. exact Hfresh.
  - rewrite Hw'. cbn. by rewrite lookup_insert_ne.
  - by rewrite Hw'.
  - unfold pushes. rewrite (effects_eq _ w _ _ _ E eq_refl).
    by destruct (has_sendToRenderer (ctx w)).
  - split.
    + by rewrite (unlinkAgent_eval agentId _ w' Harr'), Hnone.
    + by rewrite (linkAgent_eval agentId childId _ w' Harr'), Hnone.
Qed.

(** X3 on the loss of agent A, the only agent known. *)
Lemma agent_lost_drops_it_from_the_list_witness :
  let w' := snd (onAgentLost "A" Sample.loaded_A) in
  arrs w' !! agents (state w') = Some [] /\
  unlinkAgent "A" w' = (Return (Failure "Agent not found"), w').
Proof.
  destruct (agent_lost_drops_it_from_the_list "A" "kid"
              [(0%nat, Sample.agentA)] Sample.loaded_A)
    as (_ & Hknown & _ & _ & _ & _ & Hunlink & _).
  - split; [reflexivity | repeat constructor].
  - split; [exact (proj1 Hknown) | exact Hunlink].
Defined.

Lemma set_childId_restore (v : option string) (a : Agent) :
  a_childId a = None -> set_childId None (set_childId v a) = a.
Proof. destruct a. cbn. by intros ->. Qed.

(** The lookup by identifier does not depend on the entity bindings. *)
Lemma find_agent_rebound (agentId : string) (rs : list loc) (r : loc)
    (a : Agent) (v : option string) (w w2 : World) :
  objs w !! r = Some a ->
  objs w2 = <[r := set_childId v a]> (objs w) ->
  fst (find_agent (fun a => String.eqb (a_id a) agentId) rs w2) =
  fst (find_agent (fun a => String.eqb (a_id a) agentId) rs w).
Proof.
  intros Ha Hobjs. induction rs as [|r0 rs IH]; [reflexivity|].
  cbn [find_agent]. unfold readAgent. munfold. rewrite Hobjs.
  destruct (decide (r = r0)) as [<-|Hne].
  - rewrite lookup_insert_eq, Ha. cbn.
    destruct (String.eqb (a_id a) agentId); [reflexivity | exact IH].
  - rewrite lookup_insert_ne by done.
    destruct (objs w !! r0) as [a0|]; cbn; [|reflexivity].
    destruct (String.eqb (a_id a0) agentId); [reflexivity | exact IH].
Qed.

Lemma linkAgent_world (agentId childId : string) (ras : list (loc * Agent))
    (r : loc) (a : Agent) (w : World) :
  known_pairs w ras ->
  first_with_id agentId ras = Some (r, a) ->
  let w' := snd (linkAgent agentId childId w) in
  objs w !! r = Some a /\
  objs w' = <[r := set_childId (Some childId) a]> (objs w) /\
  arrs w' = arrs w /\ state w' = state w.
Proof.
  intros [Harr Hobjs] Hfind w'. apply known_pairs_Forall in Hobjs.
  pose proof (linkAgent_eval agentId childId _ w Harr) as E.
  rewrite (find_agent_known _ _ w Hobjs) in E. cbn [fst] in E.
  fold (first_with_id agentId ras) in E. rewrite Hfind in E.
  cbn [fmap option_fmap option_map fst] in E.
  destruct (first_with_id_found _ _ _ _ w Hobjs Hfind) as [Ha _].
  rewrite Ha in E. cbn zeta in E. split; [exact Ha|].
  unfold w'. rewrite E. destruct (allow2 w childId) as [st|]; [|done].
  cbn [snd].
  rewrite (updateEpicPolicy_attempt r (set_childId (Some childId) a) st)
    by apply lookup_insert_eq.
  done.
Qed.

(** X4.  Linking sets the binding before it asks for the quota.  For an
    identifier no known agent has, [epic:linkAgent] resolves to "Agent
    not found" and changes nothing.  For a known agent the binding of
    the first agent object with that identifier is set to the entity and
    no other object changes; if the quota bridge then rejects, the
    handler throws with the agent bound and no call made on the agent
    service; if it resolves, the handler resolves to success whatever
    the agent service does, having made an initial segment of the
    agent's policy updates with the flag of that quota state, and all of
    them when no call is rejected. *)
Theorem link_binds_before_quota (agentId childId : string)
    (ras : list (loc * Agent)) (w : World) :
  known_pairs w ras ->
  let w' := snd (linkAgent agentId childId w) in
  (first_with_id agentId ras = None ->
     linkAgent agentId childId w = (Return (Failure "Agent not found"), w)) /\
  (forall r a, first_with_id agentId ras = Some (r, a) ->
     objs w' !! r = Some (set_childId (Some childId) a) /\
     (forall other, other <> r -> objs w' !! other = objs w !! other) /\
     arrs w' = arrs w /\ state w' = state w /\
     (allow2 w childId = None ->
        fst (linkAgent agentId childId w) = Throw (QuotaUnavailable childId) /\
        pushes (linkAgent agentId childId) w = []) /\
     (forall st, allow2 w childId = Some st ->
        fst (linkAgent agentId childId w) = Return Success /\
        pushes (linkAgent agentId childId) w `prefix_of`
          desired_updates a (settings (state w)) (epicAllowed st) /\
        (service_up w ->
           pushes (linkAgent agentId childId) w =
           desired_updates a (settings (state w)) (epicAllowed st)))).
Proof.
  intros [Harr Hobjs] w'. apply known_pairs_Forall in Hobjs.
  pose proof (linkAgent_eval agentId childId _ w Harr) as E.
  rewrite (find_agent_known _ _ w Hobjs) in E. cbn [fst] in E.
  fold (first_with_id agentId ras) in E.
  split.
  - intros Hnone. by rewrite Hnone in E.
  - intros r a Hfind. rewrite Hfind in E. cbn [fmap option_fmap option_map fst]
      in E.
    destruct (first_with_id_found _ _ _ _ w Hobjs Hfind) as [Ha _].
    rewrite Ha in E. cbn zeta in E.
    set (a' := set_childId (Some childId) a) in *.
    set (w1 := w_objs (<[r := a']> (objs w)) w) in *.
    assert (Ha1 : objs w1 !! r = Some a') by apply lookup_insert_eq.
    pose proof (fun st => updateEpicPolicy_pushes r a' st w1 Ha1) as Hupd.
    pose proof (fun st => updateEpicPolicy_attempt r a' st w1 Ha1) as Hatt.
    cbn zeta in Hatt.
    destruct (allow2 w childId) as [st|] eqn:Hst.
    + specialize (Hupd st) as (Hpre & Hup). specialize (Hatt st).
      assert (Hw' : w' = snd (updateEpicPolicy r st w1))
        by (unfold w'; by rewrite E).
      assert (Hp : pushes (linkAgent agentId childId) w =
                   pushes (updateEpicPolicy r st) w1).
      { unfold pushes. f_equal.
        rewrite (effects_eq _ w1 w1 _ _ Hatt eq_refl).
        apply (effects_eq _ w w1 (Return Success)); [|reflexivity].
        by rewrite E, Hatt. }
      rewrite Hw', Hatt. cbn [snd].
      split; [exact Ha1|]. split.
      { intros other Hne. cbn. by apply lookup_insert_ne. }
      split; [reflexivity|]. split; [reflexivity|]. split; [done|].
      intros st' [= <-]. split; [by rewrite E|].
      rewrite Hp. split; [exact Hpre|]. intros Hsvc.
      by apply Hup.
    + assert (Hw' : w' = w1) by (unfold w'; by rewrite E).
      rewrite Hw'. split; [exact Ha1|]. split.
      { intros other Hne. cbn. by apply lookup_insert_ne. }
      split; [reflexivity|]. split; [reflexivity|]. split; [|done].
      intros _. split; [by rewrite E|].
      unfold pushes, effects. rewrite E. cbn. by rewrite drop_all.
Qed.

(** X4 on agent A: with a quota bridge that rejects, the link throws and
    A stays bound to "kid"; on the identifier "Z" nothing happens. *)
Lemma link_binds_before_quota_witness :
  let w := with_allow2 (fun _ => None) Sample.loaded_A in
  fst (linkAgent "A" "kid" w) = Throw (QuotaUnavailable "kid") /\
  objs (snd (linkAgent "A" "kid" w)) !! 0%nat =
    Some (set_childId (Some "kid") Sample.agentA) /\
  linkAgent "Z" "kid" w = (Return (Failure "Agent not found"), w).
Proof.
  intros w.
  destruct (link_binds_before_quota "A" "kid" [(0%nat, Sample.agentA)] w)
    as (_ & Hknown).
  { split; [reflexivity | repeat constructor]. }
  destruct (link_binds_before_quota "Z" "kid" [(0%nat, Sample.agentA)] w)
    as (Hunknown & _).
  { split; [reflexivity | repeat constructor]. }
  destruct (Hknown 0%nat Sample.agentA eq_refl)
    as (Hbound & _ & _ & _ & Hreject & _).
  split; [apply Hreject; reflexivity|].
  split; [exact Hbound | apply Hunknown; reflexivity].
Defined.

(** X5.  Unlinking after linking restores the agent objects but not the
    policies.  For a known agent whose [childId] was null,
    [epic:linkAgent] followed by [epic:unlinkAgent], which sets it to
    null again, leaves every agent object, the agent
    arrays and the plugin state as they were before the link; the
    unlink makes no call on the agent service, so the updates pushed by
    the link stay in force. *)
Theorem unlink_after_link_restores_binding (agentId childId : string)
    (ras : list (loc * Agent)) (r : loc) (a : Agent) (st : Allow2State)
    (w : World) :
  known_pairs w ras ->
  first_with_id agentId ras = Some (r, a) ->
  a_childId a = None ->
  allow2 w childId = Some st ->
  let w1 := snd (linkAgent agentId childId w) in
  let w2 := snd (unlinkAgent agentId w1) in
  fst (unlinkAgent agentId w1) = Return Success /\
  objs w1 !! r = Some (set_childId (Some childId) a) /\
  objs w2 = objs w /\ arrs w2 = arrs w /\ state w2 = state w /\
  trace w2 = trace w1 /\
  pushes (unlinkAgent agentId) w1 = [].
Proof.
  intros Hknown Hfind Hnone Hst w1 w2.
  destruct (linkAgent_world agentId childId ras r a w Hknown Hfind)
    as (Ha & Hobjs1 & Harr1 & Hstate1).
  fold w1 in Hobjs1, Harr1, Hstate1.
  assert (Hbound : objs w1 !! r = Some (set_childId (Some childId) a))
    by (rewrite Hobjs1; apply lookup_insert_eq).
  destruct Hknown as [Harr Hobjs]. apply known_pairs_Forall in Hobjs.
  assert (Harr1' : arrs w1 !! agents (state w1) = Some (map fst ras))
    by (by rewrite Harr1, Hstate1).
  pose proof (unlinkAgent_eval agentId _ w1 Harr1') as E.
  rewrite (find_agent_rebound agentId _ r a (Some childId) w w1 Ha Hobjs1)
    in E.
  rewrite (find_agent_known _ _ w Hobjs) in E. cbn [fst] in E.
  fold (first_with_id agentId ras) in E. rewrite Hfind in E.
  cbn [fmap option_fmap option_map fst] in E. rewrite Hbound in E.
  unfold w2, pushes, effects. rewrite E. cbn.
  split; [done|]. split; [done|]. split.
  - rewrite Hobjs1, insert_insert_eq, set_childId_restore by done.
    by apply insert_id.
  - by rewrite drop_all.
Qed.

(** X5 on agent A, linked to "kid" and unlinked again. *)
Lemma unlink_after_link_restores_binding_witness :
  let w1 := snd (linkAgent "A" "kid" Sample.loaded_A) in
  objs (snd (unlinkAgent "A" w1)) = objs Sample.loaded_A /\
  pushes (unlinkAgent "A") w1 = [].
Proof.
  destruct (unlink_after_link_restores_binding "A" "kid"
              [(0%nat, Sample.agentA)] 0%nat Sample.agentA Sample.quota10
              Sample.loaded_A)
    as (_ & _ & Hobjs & _ & _ & _ & Hpushes).
  - split; [reflexivity | repeat constructor].
  - reflexivity.
  - reflexivity.
  - reflexivity.
  - split; [exact Hobjs | exact Hpushes].
Defined.

(** ** Queries *)

Lemma getAgents_known (ras : list (loc * Agent)) (w : World) :
  known_pairs w ras ->
  getAgents w = (Return (SuccessAgents (map snd ras)), w).
Proof.
  intros [Harr Hobjs]. apply known_pairs_Forall in Hobjs.
  unfold getAgents. munfold. rewrite Harr. cbn.
  by rewrite (read_agents_known ras w Hobjs).
Qed.

Lemma onAgentDiscovered_known_pairs (agent : loc) (a : Agent)
    (ras : list (loc * Agent)) (w : World) :
  known_pairs w ras ->
  objs w !! agent = Some a ->
  service_up w ->
  known_pairs (snd (onAgentDiscovered agent w)) (ras ++ [(agent, a)]).
Proof.
  intros [Harr Hobjs] Ha Hup.
  rewrite (onAgentDiscovered_up agent a (map fst ras) w Ha Harr Hup).
  cbn [snd]. apply known_pairs_Forall in Hobjs. split.
  - cbn. rewrite lookup_insert_eq, map_app. reflexivity.
  - apply known_pairs_Forall. cbn. apply Forall_app. split; [done|].
    by constructor.
Qed.

Lemma without_agent_records (agentId : string) (ras : list (loc * Agent)) :
  map snd (without_agent agentId ras) =
  Renderer.handleAgentLost agentId (map snd ras).
Proof.
  unfold without_agent, Renderer.handleAgentLost.
  induction ras as [|[r a] ras IH]; [reflexivity|].
  cbn. destruct (String.eqb (a_id a) agentId); cbn; by rewrite IH.
Qed.

(** X6.  [epic:getAgents] returns the records of the agents of the
    plugin's agent list, in list order and with repetitions, and changes
    nothing.  The agent list the settings component keeps follows it:
    after a discovery in which no call is rejected, the answer is the
    previous answer with the discovered agent appended, which is the
    component's update on [epicAgentDiscovered]; after a loss, it is the
    previous answer without the agents that have the lost identifier,
    which is the component's update on [epicAgentLost]. *)
Theorem getAgents_lists_known_agents (agentId : string) (agent : loc)
    (a : Agent) (ras : list (loc * Agent)) (w : World) :
  known_pairs w ras ->
  getAgents w = (Return (SuccessAgents (map snd ras)), w) /\
  (objs w !! agent = Some a ->
   service_up w ->
     fst (getAgents (snd (onAgentDiscovered agent w))) =
     Return (SuccessAgents (Renderer.handleAgentDiscovered a (map snd ras)))) /\
  fst (getAgents (snd (onAgentLost agentId w))) =
    Return (SuccessAgents (Renderer.handleAgentLost agentId (map snd ras))).
Proof.
  intros Hknown. split; [by apply getAgents_known|]. split.
  - intros Ha Hup.
    rewrite (getAgents_known _ _
               (onAgentDiscovered_known_pairs agent a ras w Hknown Ha Hup)).
    cbn [fst]. by rewrite map_app.
  - rewrite (getAgents_known _ _
               (onAgentLost_known_pairs agentId ras w Hknown)).
    cbn [fst]. by rewrite without_agent_records.
Qed.

(** X6 on the world in which agent A is known, and on the discovery of
    agent B in it. *)
Lemma getAgents_lists_known_agents_witness :
  getAgents Sample.loaded_A =
    (Return (SuccessAgents [Sample.agentA]), Sample.loaded_A) /\
  fst (getAgents (snd (onAgentDiscovered 1%nat Sample.loaded_A))) =
    Return (SuccessAgents [Sample.agentA; Sample.agentB]).
Proof.
  destruct (getAgents_lists_known_agents "B" 1%nat Sample.agentB
              [(0%nat, Sample.agentA)] Sample.loaded_A) as (Hget & Hdisc & _).
  - split; [reflexivity | repeat constructor].
  - split; [exact Hget|]. apply Hdisc; [reflexivity | intros n; reflexivity].
Defined.

Lemma filter_length_le {A} (p : A -> bool) (l : list A) :
  (length (List.filter p l) <= length l)%nat.
Proof.
  induction l as [|x l IH]; cbn; [lia|]. destruct (p x); cbn; lia.
Qed.

(** X7.  [epic:getStatus] counts: the agent count is the length of the
    agent list, the online count is the number of its agents that are
    online and so never exceeds the agent count, the recent-violation
    count is the journal length capped at 10, and the query changes
    nothing. *)
Theorem getStatus_counts (ras : list (loc * Agent)) (w : World) :
  known_pairs w ras ->
  exists st,
    getStatus w = (Return (SuccessStatus st), w) /\
    status_enabled st = enabled (state w) /\
    status_settings st = settings (state w) /\
    agentCount st = length ras /\
    onlineAgents st = length (List.filter (fun ra => a_online (snd ra)) ras) /\
    (onlineAgents st <= agentCount st)%nat /\
    recentViolations st = Nat.min 10 (length (violations (state w))).
Proof.
  intros [Harr Hobjs]. apply known_pairs_Forall in Hobjs.
  eexists. split.
  - unfold getStatus. munfold. rewrite Harr. cbn.
    rewrite (filter_agents_known _ ras w Hobjs). cbn. reflexivity.
  - cbn. rewrite !length_map. repeat split.
    + apply filter_length_le.
    + change (-10) with (Z.opp 10). by rewrite slice_neg_length.
Qed.

(** X7 on the world in which agent A is known and online. *)
Lemma getStatus_counts_witness :
  exists st, getStatus Sample.loaded_A
             = (Return (SuccessStatus st), Sample.loaded_A) /\
             agentCount st = 1%nat /\ onlineAgents st = 1%nat.
Proof.
  destruct (getStatus_counts [(0%nat, Sample.agentA)] Sample.loaded_A)
    as (st & E & _ & _ & Hcount & Honline & _).
  - split; [reflexivity | repeat constructor].
  - exists st. split; [exact E|]. split; [exact Hcount | exact Honline].
Defined.

Lemma rev_drop {A} (k : nat) (xs : list A) :
  (k <= length xs)%nat -> rev (drop k xs) = take (length xs - k) (rev xs).
Proof.
  intros Hk. rewrite firstn_rev. do 2 f_equal. lia.
Qed.

Lemma slice_start_bounds (len start : Z) :
  0 <= len -> 0 <= JS.slice_start len start <= len.
Proof.
  intros Hlen. unfold JS.slice_start. destruct (start <? 0) eqn:E; lia.
Qed.

Lemma rev_slice {A} (start : Z) (xs : list A) :
  exists k, (k <= length xs)%nat /\ rev (JS.slice start xs) = take k (rev xs).
Proof.
  unfold JS.slice.
  pose proof (slice_start_bounds (Z.of_nat (length xs)) start) as Hb.
  exists (length xs - Z.to_nat (JS.slice_start (Z.of_nat (length xs)) start))%nat.
  split; [lia|]. apply rev_drop. lia.
Qed.

(** X8.  For every limit, negative ones and none included,
    [epic:getViolations] returns an initial segment of the journal read
    newest first, never more violations than are stored, and changes
    nothing; with no limit it returns the 50 newest.  After
    [epic:clearViolations] it returns the empty list for every limit,
    and clearing changes nothing but the journal. *)
Theorem violations_query_is_newest_prefix (limit : option Z) (w : World) :
  (exists l,
     getViolations limit w = (Return (SuccessViolations l), w) /\
     l `prefix_of` rev (violations (state w)) /\
     (limit = None -> l = take 50 (rev (violations (state w))))) /\
  clearViolations w =
    (Return Success, w_state (st_violations [] (state w)) w) /\
  fst (getViolations limit (snd (clearViolations w))) =
    Return (SuccessViolations []).
Proof.
  split; [|split].
  - eexists. split; [apply getViolations_eq|]. split.
    + destruct (rev_slice (- default 50 limit) (violations (state w)))
        as (k & _ & ->).
      apply prefix_take.
    + intros ->. cbn [default]. change (- (50)) with (Z.opp 50).
      rewrite slice_neg by lia. unfold JS.slice. symmetry. apply firstn_rev.
  - reflexivity.
  - rewrite getViolations_eq. cbn. unfold JS.slice. cbn.
    by rewrite drop_nil.
Qed.

(** X8 with no limit and two violations stored: both are returned,
    newest first. *)
Lemma violations_query_is_newest_prefix_witness :
  fst (getViolations None two_violations) =
  Return (SuccessViolations
            (take 50 (rev (violations (state two_violations))))).
Proof.
  destruct (violations_query_is_newest_prefix None two_violations)
    as ((l & E & _ & Hdefault) & _).
  rewrite E. cbn [fst]. by rewrite Hdefault.
Defined.

(** ** Recording a violation *)

Lemma handleViolation_eq (vd : ViolationData) (clk : Clock) (w : World) :
  handleViolation vd clk w =
  (Return tt,
   w_log (violation_effects vd clk (ctx w) (settings (state w)))
         (w_state (st_violations
                     (journal_append (mkViolation vd clk)
                                     (violations (state w)))
                     (state w)) w)).
Proof.
  unfold handleViolation, violation_effects. munfold.
  destruct (has_sendToRenderer (ctx w)), (has_logActivity (ctx w)); cbn;
    destruct (enableNotifications (settings (state w))),
      (has_notify (ctx w)); cbn;
    f_equal; unfold w_emit, w_log, w_state; cbn; f_equal;
    by rewrite <- ?app_assoc.
Qed.

(** X9.  [handleViolation] changes nothing but the journal and the
    trace, and makes no call on the agent service; it tells the renderer
    exactly when the host has [sendToRenderer], and it notifies exactly
    when notifications are enabled in the settings and the host has
    [notify]. *)
Theorem violation_touches_journal_only (vd : ViolationData) (clk : Clock)
    (w : World) :
  let t := effects (handleViolation vd clk) w in
  snd (handleViolation vd clk w) =
    w_log t (w_state (st_violations
                        (journal_append (mkViolation vd clk)
                                        (violations (state w)))
                        (state w)) w) /\
  fst (handleViolation vd clk w) = Return tt /\
  pushes_of t = [] /\
  (SendToRenderer "epicViolation" (EpicViolation (mkViolation vd clk)) ∈ t
     <-> has_sendToRenderer (ctx w) = true) /\
  ((exists n, Notify n ∈ t) <->
     enableNotifications (settings (state w)) = true /\
     has_notify (ctx w) = true).
Proof.
  intros t. pose proof (handleViolation_eq vd clk w) as E.
  assert (Ht : t = violation_effects vd clk (ctx w) (settings (state w)))
    by (by apply (effects_eq _ w _ _ _ E)).
  rewrite Ht, E. split; [done|]. split; [done|].
  unfold violation_effects.
  destruct (has_sendToRenderer (ctx w)), (has_logActivity (ctx w)),
    (enableNotifications (settings (state w))), (has_notify (ctx w));
    cbn; (split; [reflexivity|]);
    rewrite ?elem_of_cons, ?elem_of_nil;
    (split; [intuition (discriminate || congruence)|]);
    (split; [intros [n Hn]; rewrite ?elem_of_cons, ?elem_of_nil in Hn;
             intuition (discriminate || congruence)
            | intros [? ?]; try discriminate; eexists;
              rewrite ?elem_of_cons; intuition eauto ]).
Qed.

(** X9 on a Fortnite report against a host that has every optional
    member: the renderer is told and a notification is shown. *)
Lemma violation_touches_journal_only_witness :
  let vd := Sample.report "FortniteClient-Win64-Shipping.exe" in
  let t := effects (handleViolation vd (Sample.clock 1)) Sample.loaded_A in
  SendToRenderer "epicViolation"
    (EpicViolation (mkViolation vd (Sample.clock 1))) ∈ t /\
  exists n, Notify n ∈ t.
Proof.
  intros vd t.
  destruct (violation_touches_journal_only vd (Sample.clock 1)
              Sample.loaded_A) as (_ & _ & _ & Hsend & Hnotify).
  split; [by apply Hsend | by apply Hnotify].
Defined.

Lemma last_n_last_n {A} (n m : nat) (xs : list A) :
  (n <= m)%nat -> last_n n (last_n m xs) = last_n n xs.
Proof.
  intros Hnm. unfold last_n. rewrite length_drop, drop_drop. f_equal.
  generalize (length xs). intros len. lia.
Qed.

Lemma rev_last_n {A} (n : nat) (xs : list A) :
  rev (last_n n xs) = take n (rev xs).
Proof. unfold last_n. symmetry. apply firstn_rev. Qed.

Lemma slice_range_take {A} (n : Z) (xs : list A) :
  0 <= n -> JS.slice_range 0 n xs = take (Z.to_nat n) xs.
Proof.
  intros Hn. unfold JS.slice_range, JS.slice_start.
  pose proof (Nat2Z.is_nonneg (length xs)) as Hlen.
  destruct (Z.ltb_spec 0 0); [lia|]. destruct (Z.ltb_spec n 0); [lia|].
  rewrite (Z.min_l 0) by exact Hlen. cbn [Z.to_nat drop].
  rewrite Z.sub_0_r.
  destruct (Z.min_spec n (Z.of_nat (length xs))) as [[? ->]|[? ->]];
    [done|].
  rewrite Nat2Z.id, firstn_all. symmetry. apply take_ge.
  apply Nat2Z.inj_le. by rewrite Z2Nat.id.
Qed.

Lemma slice_neg_last_n {A} (n : Z) (xs : list A) :
  0 < n -> JS.slice (- n) xs = last_n (Z.to_nat n) xs.
Proof. apply slice_neg. Qed.

(** The newest-first view of the last 50 entries, before and after an
    append to the journal. *)
Lemma newest_50_after_append (v : Violation) (vs : list Violation) :
  rev (last_n 50 (journal_append v vs)) =
  take 50 (v :: rev (last_n 50 vs)).
Proof.
  rewrite journal_append_last_n, last_n_last_n by lia.
  rewrite !rev_last_n, rev_app_distr. cbn [rev app take].
  f_equal. rewrite take_take. f_equal.
Qed.

(** X10.  The newest violation comes first: right after
    [handleViolation] has recorded a report, [epic:getViolations] with a
    positive limit, or with none, returns a list whose first element is
    the violation just recorded. *)
Theorem newest_violation_first (vd : ViolationData) (clk : Clock)
    (limit : option Z) (w : World) :
  0 < default 50 limit ->
  exists rest,
    fst (getViolations limit (snd (handleViolation vd clk w))) =
    Return (SuccessViolations (mkViolation vd clk :: rest)).
Proof.
  intros Hpos. rewrite getViolations_eq, handleViolation_eq. cbn [fst snd].
  cbn [state w_log w_state violations st_violations].
  rewrite slice_neg_last_n by done. rewrite rev_last_n.
  destruct (proj1 (last_Some _ _) (journal_append_last (mkViolation vd clk)
              (violations (state w)))) as [l' ->].
  rewrite rev_app_distr. cbn [rev app].
  destruct (Z.to_nat (default 50 limit)) as [|k] eqn:Hk; [lia|].
  cbn [take]. by eexists.
Qed.

(** X10 on a Fortnite report with limit 1. *)
Lemma newest_violation_first_witness :
  exists rest,
    fst (getViolations (Some 1)
           (snd (handleViolation (Sample.report "FortniteLauncher.exe")
                                 (Sample.clock 3) two_violations))) =
    Return (SuccessViolations
              (mkViolation (Sample.report "FortniteLauncher.exe")
                           (Sample.clock 3) :: rest)).
Proof.
  apply (newest_violation_first (Sample.report "FortniteLauncher.exe")
           (Sample.clock 3) (Some 1) two_violations).
  cbn. lia.
Defined.

(** ** The settings component *)

(** X11.  The violation list of the settings component stays what
    [epic:getViolations] without a limit returns: if the component shows
    the answer [l] of that query, then after [handleViolation] has
    recorded a report the query returns the component's update of [l]
    with the recorded violation, which is never longer than 50. *)
Theorem component_violations_in_sync (vd : ViolationData) (clk : Clock)
    (l : list Violation) (w : World) :
  fst (getViolations None w) = Return (SuccessViolations l) ->
  fst (getViolations None (snd (handleViolation vd clk w))) =
    Return (SuccessViolations
              (Renderer.handleViolation (mkViolation vd clk) l)) /\
  (length (Renderer.handleViolation (mkViolation vd clk) l) <= 50)%nat.
Proof.
  rewrite !getViolations_eq, handleViolation_eq. cbn [fst snd default].
  cbn [state w_log w_state violations st_violations].
  change (- (50)) with (Z.opp 50). rewrite !slice_neg_last_n by lia.
  intros [= <-]. unfold Renderer.handleViolation.
  rewrite slice_range_take by lia. split.
  - do 2 f_equal. apply newest_50_after_append.
  - rewrite length_take. lia.
Qed.

(** X11 on a third violation when the component shows the two stored
    ones. *)
Lemma component_violations_in_sync_witness :
  fst (getViolations None
         (snd (handleViolation (Sample.report "RocketLeague.exe")
                               (Sample.clock 3) two_violations))) =
  Return (SuccessViolations
            (Renderer.handleViolation
               (mkViolation (Sample.report "RocketLeague.exe")
                            (Sample.clock 3))
               (rev (violations (state two_violations))))).
Proof.
  apply (component_violations_in_sync (Sample.report "RocketLeague.exe")
           (Sample.clock 3) _ two_violations).
  reflexivity.
Defined.



(** ** Loading and unloading *)

Lemma onLoad_unfold (loadedState : option PluginState) (listed : loc)
    (w : World) :
  onLoad loadedState listed w =
  if has_agentService (ctx w) then
    match arrs w !! listed with
    | Some found =>
        match for_of found configureEpicPolicy
                (load_started loadedState listed (length found) w) with
        | (Return _, w3) => (Return tt, load_finished listed w3)
        | (Throw e, w3) => (Throw e, w3)
        end
    | None =>
        (Throw TypeError,
         w_state (default (state w) loadedState)
           (w_log [Console LOG MsgInitializing] (w_monitored ∅ w)))
    end
  else
    (Return tt,
     w_log ([Console LOG MsgInitializing; Console ERROR MsgNoAgentService] ++
            (if has_sendToRenderer (ctx w)
             then [SendToRenderer "pluginError"
                     (PluginError plugin_name
                        "Agent service not available. Please ensure allow2automate-agent is installed on target devices.")]
             else []))
       (w_state (default (state w) loadedState) w)).
Proof.
  unfold onLoad, setupIPCHandlers, load_started, load_finished. munfold.
  destruct (has_agentService (ctx w)); cbn.
  - destruct (arrs w !! listed) as [found|]; cbn; [|reflexivity].
    match goal with
    | |- (let (_, _) := for_of found configureEpicPolicy ?w1 in _) =
         match for_of found configureEpicPolicy ?w2 with _ => _ end =>
        replace w1 with w2
          by (unfold w_emit, w_log, w_state, w_monitored; cbn; f_equal;
              by rewrite <- ?app_assoc)
    end.
    destruct (for_of found configureEpicPolicy _) as [[[]|e] w3];
      [|reflexivity].
    cbn. destruct (has_ipcMain (ctx w3)); reflexivity.
  - destruct (has_sendToRenderer (ctx w)); cbn; f_equal;
      unfold w_emit, w_log, w_state; cbn; f_equal; by rewrite <- ?app_assoc.
Qed.

Lemma for_of_configure_logged (rs : list loc) :
  respects (logged (only_pushes deny_create)) (for_of rs configureEpicPolicy).
Proof.
  apply respects_for_of; side_instances. intros r.
  apply configureEpicPolicy_logged.
Qed.

(** X13.  [onLoad] registers its handlers and enables the plugin only
    when it runs to its end.  Without an agent service it returns
    normally after reporting the error, having made no call, registered
    no handler and left the enabled flag of the adopted state as it
    was.  When it throws (a create was rejected while the listed agents
    were configured, or the listed array is missing), no handler is
    registered and the enabled flag is not set, although the listed
    array is already the plugin's agent list.  When it returns normally
    with an agent service, the handlers are registered on the listed
    array, the plugin is enabled, and the IPC handlers are registered if
    the host has [ipcMain]. *)
Theorem load_registers_only_at_its_end (loadedState : option PluginState)
    (listed : loc) (w : World) :
  let w' := snd (onLoad loadedState listed w) in
  let adopted := default (state w) loadedState in
  (has_agentService (ctx w) = false ->
     fst (onLoad loadedState listed w) = Return tt /\
     pushes (onLoad loadedState listed) w = [] /\
     closure_agents w' = closure_agents w /\ ipc w' = ipc w /\
     state w' = adopted) /\
  (forall e, fst (onLoad loadedState listed w) = Throw e ->
     closure_agents w' = closure_agents w /\ ipc w' = ipc w /\
     enabled (state w') = enabled adopted /\
     (is_Some (arrs w !! listed) -> agents (state w') = listed)) /\
  (has_agentService (ctx w) = true ->
   fst (onLoad loadedState listed w) = Return tt ->
     closure_agents w' = Some listed /\ agents (state w') = listed /\
     enabled (state w') = true /\
     ipc w' = (has_ipcMain (ctx w) || ipc w)).
Proof.
  intros w' adopted. unfold w', pushes, effects.
  rewrite onLoad_unfold.
  destruct (has_agentService (ctx w)) eqn:Hsvc.
  - split; [done|].
    destruct (arrs w !! listed) as [found|] eqn:Hlisted.
    + destruct (for_of_configure_logged found
                  (load_started loadedState listed (length found) w))
        as [t [E _]].
      destruct (for_of found configureEpicPolicy _) as [[[]|e] w3];
        cbn [snd] in E; subst w3; cbn [fst snd].
      * split; [done|]. intros _ _. cbn.
        destruct (has_ipcMain (ctx w)); cbn; done.
      * split; [|done]. intros e' _. cbn. done.
    + cbn [fst snd]. split; [|done]. intros e _. cbn.
      split; [done|]. split; [done|]. split; [done|].
      intros [? ?]. discriminate.
  - split; [|done]. intros _. cbn [fst snd].
    split; [done|]. split; [|done]. cbn.
    rewrite drop_app_length.
    by destruct (has_sendToRenderer (ctx w)).
Qed.

(** X13 on two loads: one by a host without an agent service, one in
    which the first create is rejected. *)
Lemma load_registers_only_at_its_end_witness :
  let no_service :=
    {| has_agentService := false; has_sendToRenderer := true;
       has_logActivity := true; has_notify := true; has_ipcMain := true |} in
  let w1 := {| objs := objs Sample.unloaded; arrs := arrs Sample.unloaded;
               state := state Sample.unloaded; closure_agents := None;
               ipc := false; monitoredProcesses := ∅; ctx := no_service;
               svc_outcome := svc_outcome Sample.unloaded;
               allow2 := allow2 Sample.unloaded; trace := [] |} in
  let w2 := with_outcome (rejects_only 0) Sample.unloaded in
  enabled (state (snd (onLoad None 2%nat w1))) = false /\
  closure_agents (snd (onLoad None 2%nat w1)) = None /\
  closure_agents (snd (onLoad None 2%nat w2)) = None /\
  agents (state (snd (onLoad None 2%nat w2))) = 2%nat.
Proof.
  intros no_service w1 w2.
  destruct (load_registers_only_at_its_end None 2%nat w1) as (Hnone & _).
  destruct (Hnone eq_refl) as (_ & _ & Hclosure & _ & Hstate).
  destruct (load_registers_only_at_its_end None 2%nat w2) as (_ & Hthrow & _).
  destruct (Hthrow (PushRejected
              (CreatePolicy "A" (launcherPolicy Sample.agentA
                                   (settings (initial_state 0%nat)))))
              eq_refl) as (Hclosure2 & _ & _ & Hagents).
  split; [by rewrite Hstate|]. split; [exact Hclosure|].
  split; [exact Hclosure2|]. apply Hagents. by eexists.
Defined.

(** X14.  When the agent service is there and rejects no call, [onLoad]
    returns normally, takes the listed array as the plugin's agent list,
    and creates, for every listed agent in list order, the agent's
    policy list under the settings of the adopted state (the loaded
    state if there is one, else the plugin's own). *)
Theorem load_configures_listed_agents (loadedState : option PluginState)
    (listed : loc) (ras : list (loc * Agent)) (w : World) :
  has_agentService (ctx w) = true ->
  arrs w !! listed = Some (map fst ras) ->
  Forall (fun ra => objs w !! fst ra = Some (snd ra)) ras ->
  service_up w ->
  let w' := snd (onLoad loadedState listed w) in
  let s := settings (default (state w) loadedState) in
  fst (onLoad loadedState listed w) = Return tt /\
  known_pairs w' ras /\
  settings (state w') = s /\
  pushes (onLoad loadedState listed) w =
    concat (map (fun a => map (CreatePolicy (a_id a)) (desired_policies a s))
                (map snd ras)).
Proof.
  intros Hsvc Hlisted Hobjs Hup w' s. unfold w', pushes.
  pose proof (onLoad_unfold loadedState listed w) as E.
  rewrite Hsvc, Hlisted in E.
  rewrite (reconfigure_up (map fst ras) (map snd ras)) in E.
  2: { apply known_pairs_Forall. exact Hobjs. }
  2: { exact Hup. }
  rewrite E. cbn [fst snd]. split; [done|]. split; [|split].
  - split.
    + cbn. destruct (has_ipcMain (ctx w)); exact Hlisted.
    + apply known_pairs_Forall. cbn.
      destruct (has_ipcMain (ctx w)); exact Hobjs.
  - cbn. by destruct (has_ipcMain (ctx w)).
  - rewrite <- pushes_of_concat_configure.
    set (t := concat (map _ (map snd ras))).
    rewrite (effects_log _ w
      ([Console LOG MsgInitializing;
        Console LOG (MsgFound (length (map fst ras)))] ++ t ++
       (if has_ipcMain (ctx w) then [Console LOG MsgIpcRegistered]
        else [Console WARN MsgNoIpc]) ++ [Console LOG MsgInitialized])).
    + rewrite !pushes_of_app.
      change (pushes_of [Console LOG MsgInitializing;
                         Console LOG (MsgFound (length (map fst ras)))])
        with (@nil Push).
      destruct (has_ipcMain (ctx w)); cbn [app];
        rewrite <- (app_nil_r (pushes_of t)) at 2; reflexivity.
    + rewrite E. cbn.
      destruct (has_ipcMain (ctx w)); cbn; by rewrite <- !app_assoc.
Qed.

(** X14 on the load of the plugin with agent A listed. *)
Lemma load_configures_listed_agents_witness :
  created_names (pushes (onLoad None 2%nat) Sample.unloaded) =
  [ "EpicGamesLauncher.exe"; "FortniteClient-Win64-Shipping.exe";
    "FortniteLauncher.exe"; "RocketLeague.exe" ].
Proof.
  destruct (load_configures_listed_agents None 2%nat
              [(0%nat, Sample.agentA)] Sample.unloaded)
    as (_ & _ & _ & Hpushes).
  - reflexivity.
  - reflexivity.
  - repeat constructor.
  - intros n. reflexivity.
  - rewrite Hpushes. reflexivity.
Defined.

Lemma no_push_nil (t : list Effect) :
  Forall (only_pushes no_push) t -> pushes_of t = [].
Proof.
  intros H. apply only_pushes_Forall in H.
  destruct (pushes_of t) as [|p ps]; [done|].
  by apply Forall_cons_1 in H as [[] _].
Qed.

Lemma onUnload_logged (w : World) :
  exists t, snd (onUnload w) =
            w_log t (w_state (st_enabled false (state w)) w) /\
            pushes_of t = [].
Proof.
  pose (tail :=
    (w <- get ;;
     if has_agentService (ctx w) then
       arr <- readArr (agents (state w)) ;;
       for_of arr (fun agent =>
         a <- readAgent agent ;;
         console LOG (MsgRemoving (a_hostname a)))
     else ret tt) : M unit).
  assert (Htail : respects (logged (only_pushes no_push)) tail).
  { unfold tail. respects_auto. by apply logged_console. }
  destruct (Htail (w_state (st_enabled false (state w))
                     (w_log [Console LOG MsgUnloading] w))) as [t [E Ht]].
  exists ([Console LOG MsgUnloading] ++ t). split.
  - transitivity (snd (tail (w_state (st_enabled false (state w))
                               (w_log [Console LOG MsgUnloading] w))));
      [reflexivity|].
    rewrite E. unfold w_log, w_state; cbn; f_equal. by rewrite <- app_assoc.
  - rewrite pushes_of_app. by rewrite (no_push_nil t Ht).
Qed.

(** X15.  [onUnload] only clears the enabled flag and writes to the
    console.  It makes no call on the agent service, so every policy
    stays on its agent; the agent list, the bindings, the journal and
    the settings are kept; and the handlers stay registered, so a
    violation reported after the unload is still recorded. *)
Theorem unload_keeps_policies_and_handlers (vd : ViolationData)
    (clk : Clock) (w : World) :
  let w' := snd (onUnload w) in
  enabled (state w') = false /\
  pushes onUnload w = [] /\
  objs w' = objs w /\ arrs w' = arrs w /\
  agents (state w') = agents (state w) /\
  violations (state w') = violations (state w) /\
  settings (state w') = settings (state w) /\
  closure_agents w' = closure_agents w /\ ipc w' = ipc w /\
  (is_Some (closure_agents w) ->
   isEpicProcess (vd_processName vd) = true ->
     violations (state (snd (handle (Violated vd clk) w'))) =
     journal_append (mkViolation vd clk) (violations (state w))).
Proof.
  intros w'. destruct (onUnload_logged w) as [t [E Ht]].
  fold w' in E.
  assert (Hp : pushes onUnload w = []).
  { unfold pushes. rewrite (effects_log _ w t); [done|].
    fold w'. by rewrite E. }
  rewrite E. cbn. repeat split; try done.
  intros [r Hr] Hepic. unfold when_listening, event, onViolation. munfold.
  rewrite Hr, Hepic. 
  pose proof (handleViolation_journal vd clk
                (w_log t (w_state (st_enabled false (state w)) w))) as Hj.
  destruct (handleViolation vd clk _) as [[[]|e] w2]; cbn in *; exact Hj.
Qed.

(** X15 on the world in which agent A is known: after the unload a
    Fortnite violation is still recorded. *)
Lemma unload_keeps_policies_and_handlers_witness :
  length (violations (state (snd
    (handle (Violated (Sample.report "FortniteLauncher.exe") (Sample.clock 1))
            (snd (onUnload Sample.loaded_A)))))) = 1%nat.
Proof.
  destruct (unload_keeps_policies_and_handlers
              (Sample.report "FortniteLauncher.exe") (Sample.clock 1)
              Sample.loaded_A) as (_ & _ & _ & _ & _ & _ & _ & _ & _ & Hrec).
  rewrite Hrec; [reflexivity | by eexists | reflexivity].
Defined.

(** ** The process catalogue and the violation filter *)

Lemma string_app_assoc (a b c : string) :
  (a +:+ b) +:+ c = a +:+ (b +:+ c).
Proof.
  induction a as [|x a IH]; [reflexivity|].
  change (String x ((a +:+ b) +:+ c) = String x (a +:+ (b +:+ c))).
  by rewrite IH.
Qed.

Lemma toLowerCase_app (a b : string) :
  JS.toLowerCase (a +:+ b) = JS.toLowerCase a +:+ JS.toLowerCase b.
Proof.
  induction a as [|x a IH]; [reflexivity|].
  change (String (JS.lower_ascii x) (JS.toLowerCase (a +:+ b)) =
          String (JS.lower_ascii x) (JS.toLowerCase a +:+ JS.toLowerCase b)).
  by rewrite IH.
Qed.

(** X16.  The violation filter ignores ASCII letter case and what
    surrounds a match: two names with the same lowercase form get the
    same verdict, and a name that is recognised as an Epic process stays
    recognised when it is embedded in a longer string, such as the full
    path of the executable. *)
Theorem epic_match_survives_path_and_case (pre name post name' : string) :
  (JS.toLowerCase name = JS.toLowerCase name' ->
     isEpicProcess name = isEpicProcess name') /\
  (isEpicProcess name = true ->
     isEpicProcess (pre +:+ name +:+ post) = true).
Proof.
  split.
  - intros H. unfold isEpicProcess. cbn zeta. by rewrite H.
  - rewrite !isEpicProcess_keyword.
    intros (k & Hk & a & b & Hab). exists k. split; [done|].
    exists (JS.toLowerCase pre +:+ a), (b +:+ JS.toLowerCase post).
    rewrite !toLowerCase_app, Hab, !string_app_assoc. reflexivity.
Qed.

(** X16 on the Fortnite client under its install path, in upper case. *)
Lemma epic_match_survives_path_and_case_witness :
  isEpicProcess
    ("C:\GAMES\" +:+ "FORTNITECLIENT-WIN64-SHIPPING.EXE" +:+ "") = true.
Proof.
  apply (epic_match_survives_path_and_case "C:\GAMES\"
           "FORTNITECLIENT-WIN64-SHIPPING.EXE" "" "").
  reflexivity.
Defined.

(** X17.  The violation filter does not cover the whole catalogue.  On
    every platform, recognised or not, each policy [configureEpicPolicy]
    creates is for a process name the filter recognises, with one
    exception: the darwin game policy "Fortnite.app".  A violation
    reported under that name is dropped without a trace. *)
Theorem fortnite_app_policy_is_filtered_out (a : Agent) (s : Settings)
    (p : Policy) (vd : ViolationData) (clk : Clock) (w : World) :
  (In p (desired_policies a s) ->
     (isEpicProcess (p_processName p) = false <->
      p_processName p = "Fortnite.app")) /\
  (a_platform a = "darwin" ->
   monitorAllGames s = true ->
     In (gamePolicy "Fortnite.app" a s) (desired_policies a s)) /\
  (vd_processName vd = "Fortnite.app" ->
     onViolation vd clk w = (Return tt, w)).
Proof.
  split; [|split].
  - unfold desired_policies, launcherPolicy, getEpicProcessNames.
    destruct (String.eqb (a_platform a) "win32");
      [|destruct (String.eqb (a_platform a) "darwin");
        [|destruct (String.eqb (a_platform a) "linux")]];
      destruct (monitorAllGames s); cbn;
      intros Hin;
      repeat (destruct Hin as [<-|Hin];
              [vm_compute; split; intros H; (discriminate H || reflexivity)|]);
      destruct Hin.
  - intros Hdarwin Hall. unfold desired_policies, getEpicProcessNames.
    rewrite Hdarwin, Hall. cbn. right. by left.
  - intros Hname. unfold onViolation. rewrite Hname. reflexivity.
Qed.

(** X17 on a darwin agent: its Fortnite policy is created, and a
    violation of it is dropped. *)
Lemma fortnite_app_policy_is_filtered_out_witness :
  let mac := {| a_id := "M"; a_hostname := "mac"; a_platform := "darwin";
                a_online := true; a_childId := None |} in
  In (gamePolicy "Fortnite.app" mac (settings (initial_state 0%nat)))
     (desired_policies mac (settings (initial_state 0%nat))) /\
  onViolation (Sample.report "Fortnite.app") (Sample.clock 1)
              Sample.loaded_A = (Return tt, Sample.loaded_A).
Proof.
  intros mac.
  destruct (fortnite_app_policy_is_filtered_out mac
              (settings (initial_state 0%nat))
              (gamePolicy "Fortnite.app" mac (settings (initial_state 0%nat)))
              (Sample.report "Fortnite.app") (Sample.clock 1)
              Sample.loaded_A) as (_ & Hin & Hdrop).
  split; [by apply Hin | by apply Hdrop].
Defined.

(** ** The monitor's process list *)

(** X18.  [EpicMonitor.getEpicProcesses] on every platform string,
    recognised or not, that is not a property name inherited from the
    object prototype (for those the tables do not fall back to win32):
    without games it is the launcher entry alone, with games it is that
    entry followed by two game entries, so the first list is an initial
    segment of the second; the process names, which are the policy
    keys, are pairwise distinct; and every name the plugin's own
    catalogue watches on that platform is an alternative of one of the
    monitor's entries, the launcher alternatives being exactly the
    plugin's launcher names. *)
Theorem monitor_process_list_shape (platform : string) :
  JS.plain_key platform ->
  let without := EpicMonitor.getEpicProcesses platform false in
  let withGames := EpicMonitor.getEpicProcesses platform true in
  length without = 1%nat /\ length withGames = 3%nat /\
  without `prefix_of` withGames /\
  NoDup (map pr_name withGames) /\
  map pr_alternatives without = [launcher (getEpicProcessNames platform)] /\
  (forall name, In name (games (getEpicProcessNames platform)) ->
                In name (concat (map pr_alternatives withGames))).
Proof.
  intros _. cbn zeta. split; [done|]. split; [done|]. split; [by eexists|].
  split.
  - cbn. repeat (constructor; [rewrite ?elem_of_cons, ?elem_of_nil;
                               intuition discriminate|]).
    constructor.
  - unfold EpicMonitor.getEpicProcesses, EpicMonitor.getLauncherNames,
      EpicMonitor.getFortniteNames, EpicMonitor.getRocketLeagueNames,
      EpicMonitor.by_platform, getEpicProcessNames.
    destruct (String.eqb platform "win32");
      [|destruct (String.eqb platform "darwin");
        [|destruct (String.eqb platform "linux")]];
      (split; [reflexivity|]); cbn; intros name Hin; intuition.
Qed.

(** X18 on darwin, which is no inherited property name: "Fortnite.app"
    of the plugin's catalogue is an alternative of a monitor entry. *)
Lemma monitor_process_list_shape_witness :
  JS.plain_key "darwin" /\
  In "Fortnite.app"
     (concat (map pr_alternatives (EpicMonitor.getEpicProcesses "darwin" true))).
Proof.
  assert (Hplain : JS.plain_key "darwin").
  { unfold JS.plain_key, JS.inherited_keys. cbn. intuition discriminate. }
  split; [exact Hplain|].
  destruct (monitor_process_list_shape "darwin" Hplain)
    as (_ & _ & _ & _ & _ & Hgames).
  apply Hgames. cbn. by left.
Defined.

(** ** The monitor's bookkeeping *)

Lemma startMonitoring_eval (agentId : string) (agent : Agent)
    (checkInterval : option Z) (monitorGames : option bool) (w : World) :
  let processes := EpicMonitor.getEpicProcesses (a_platform agent)
                     (default true monitorGames) in
  let r := attempt (svc_outcome w) (calls_made w)
             (map (fun process =>
                     CreatePolicy agentId
                       (monitor_policy (default 30000 checkInterval) process))
                  processes) in
  EpicMonitor.startMonitoring agentId agent checkInterval monitorGames w =
  match fst r with
  | Return _ =>
      (Return tt,
       w_monitored (<[agentId := processes]> (monitoredProcesses w))
                   (w_log (snd r) w))
  | Throw e => (Throw e, w_log (snd r) w)
  end.
Proof.
  intros processes r. unfold EpicMonitor.startMonitoring.
  unfold bind at 1. cbn zeta.
  rewrite (for_of_attempt_const _
             (fun process => CreatePolicy agentId
                (monitor_policy (default 30000 checkInterval) process))).
  cbn zeta. fold processes. fold r.
  by destruct (fst r) as [[]|e].
Qed.

Lemma stopMonitoring_eval (agentId : string) (processes : list Process)
    (w : World) :
  monitoredProcesses w !! agentId = Some processes ->
  let r := attempt (svc_outcome w) (calls_made w)
             (map (fun process => DeletePolicy agentId (pr_name process))
                  processes) in
  EpicMonitor.stopMonitoring agentId w =
  match fst r with
  | Return _ =>
      (Return tt,
       w_monitored (delete agentId (monitoredProcesses w)) (w_log (snd r) w))
  | Throw e => (Throw e, w_log (snd r) w)
  end.
Proof.
  intros Hm r. unfold EpicMonitor.stopMonitoring.
  unfold bind at 1, get at 1. cbn beta iota. rewrite Hm.
  unfold bind at 1.
  rewrite (for_of_attempt_const _
             (fun process => DeletePolicy agentId (pr_name process))).
  cbn zeta. fold r. by destruct (fst r) as [[]|e].
Qed.

Lemma stopMonitoring_unmonitored (agentId : string) (w : World) :
  monitoredProcesses w !! agentId = None ->
  EpicMonitor.stopMonitoring agentId w =
  (Return tt, w_log [Console WARN (MsgNoMonitored agentId)] w).
Proof.
  intros Hm. unfold EpicMonitor.stopMonitoring.
  unfold bind at 1, get at 1. cbn beta iota. by rewrite Hm.
Qed.

Lemma created_names_monitor (agentId : string) (ci : Z)
    (processes : list Process) :
  created_names
    (map (fun process => CreatePolicy agentId (monitor_policy ci process))
         processes) = map pr_name processes.
Proof.
  induction processes as [|p l IH]; [reflexivity|].
  cbn [map].
  change (pr_name p :: created_names
            (map (fun process => CreatePolicy agentId
                                   (monitor_policy ci process)) l)
          = pr_name p :: map pr_name l).
  by rewrite IH.
Qed.

Lemma deleted_names_monitor (agentId : string) (processes : list Process) :
  deleted_names
    (map (fun process => DeletePolicy agentId (pr_name process)) processes)
  = map pr_name processes.
Proof.
  induction processes as [|p l IH]; [reflexivity|].
  cbn [map].
  change (pr_name p :: deleted_names
            (map (fun process => DeletePolicy agentId (pr_name process)) l)
          = pr_name p :: map pr_name l).
  by rewrite IH.
Qed.

(** X19.  Stopping undoes starting.  When no call is rejected and the
    agent was not monitored before, [startMonitoring] followed by
    [stopMonitoring] leaves the monitor's map as it was, and the stop
    deletes exactly the policies the start created: the same process
    names in the same order. *)
Theorem monitor_stop_undoes_start (agentId : string) (agent : Agent)
    (checkInterval : option Z) (monitorGames : option bool) (w : World) :
  service_up w ->
  monitoredProcesses w !! agentId = None ->
  let start := EpicMonitor.startMonitoring agentId agent checkInterval
                 monitorGames in
  let w1 := snd (start w) in
  let w2 := snd (EpicMonitor.stopMonitoring agentId w1) in
  fst (start w) = Return tt /\
  fst (EpicMonitor.stopMonitoring agentId w1) = Return tt /\
  monitoredProcesses w2 = monitoredProcesses w /\
  created_names (pushes start w) =
    map pr_name (EpicMonitor.getEpicProcesses (a_platform agent)
                   (default true monitorGames)) /\
  deleted_names (pushes (EpicMonitor.stopMonitoring agentId) w1) =
    created_names (pushes start w).
Proof.
  intros Hup Hnone start w1 w2.
  pose proof (startMonitoring_eval agentId agent checkInterval monitorGames w)
    as E1. cbn zeta in E1. rewrite attempt_up in E1 by exact Hup.
  cbn [fst snd] in E1. fold start in E1.
  set (processes := EpicMonitor.getEpicProcesses (a_platform agent)
                      (default true monitorGames)) in *.
  assert (Hw1 : w1 = snd (start w)) by reflexivity. rewrite E1 in Hw1.
  cbn [snd] in Hw1.
  assert (Hm1 : monitoredProcesses w1 !! agentId = Some processes)
    by (rewrite Hw1; apply lookup_insert_eq).
  assert (Hup1 : service_up w1) by (by rewrite Hw1).
  pose proof (stopMonitoring_eval agentId processes w1 Hm1) as E2.
  cbn zeta in E2. rewrite attempt_up in E2 by exact Hup1.
  cbn [fst snd] in E2.
  assert (Hc : created_names (pushes start w) = map pr_name processes).
  { unfold pushes. rewrite (effects_log start w _ ltac:(by rewrite E1)).
    rewrite (pushes_of_calls (fun p : Push => p)), map_id.
    apply created_names_monitor. }
  split; [by rewrite E1|]. split; [by rewrite E2|]. split; [|split].
  - unfold w2. rewrite E2. cbn [snd]. rewrite Hw1. cbn.
    by apply delete_insert_id.
  - exact Hc.
  - rewrite Hc. unfold pushes.
    rewrite (effects_log _ w1 _ ltac:(by rewrite E2)).
    rewrite (pushes_of_calls (fun p : Push => p)), map_id.
    apply deleted_names_monitor.
Qed.

(** X19 on agent A, monitored with games and then stopped. *)
Lemma monitor_stop_undoes_start_witness :
  let w1 := snd (EpicMonitor.startMonitoring "A" Sample.agentA None None
                   Sample.loaded_A) in
  deleted_names (pushes (EpicMonitor.stopMonitoring "A") w1) =
    [ "EpicGamesLauncher"; "FortniteClient"; "RocketLeague" ] /\
  monitoredProcesses (snd (EpicMonitor.stopMonitoring "A" w1)) =
    monitoredProcesses Sample.loaded_A.
Proof.
  destruct (monitor_stop_undoes_start "A" Sample.agentA None None
              Sample.loaded_A) as (_ & _ & Hmap & Hcreated & Hdeleted).
  - intros n. reflexivity.
  - reflexivity.
  - split; [|exact Hmap]. rewrite Hdeleted, Hcreated. reflexivity.
Defined.

Lemma startMonitoring_throws (agentId : string) (agent : Agent)
    (checkInterval : option Z) (monitorGames : option bool) (e : Exn)
    (w : World) :
  let start := EpicMonitor.startMonitoring agentId agent checkInterval
                 monitorGames in
  fst (start w) = Throw e ->
  (exists p, e = PushRejected p /\ last (pushes start w) = Some p) /\
  exists t, snd (start w) = w_log t w.
Proof.
  intros start Hthrow.
  pose proof (startMonitoring_eval agentId agent checkInterval monitorGames w)
    as E. cbn zeta in E. fold start in E.
  set (r := attempt _ _ _) in E.
  assert (Hr : fst r = Throw e).
  { rewrite E in Hthrow. by destruct (fst r) as [[]|e']; cbn in Hthrow;
      [discriminate | injection Hthrow as ->]. }
  rewrite Hr in E.
  destruct (attempt_Throw _ _ _ _ Hr) as (p & -> & _ & Hlast).
  split.
  - exists p. split; [done|]. unfold pushes.
    by rewrite (effects_eq _ w w _ _ E eq_refl).
  - exists (snd r). by rewrite E.
Qed.

(** X20.  A failed start is not recorded and leaves behind the policies
    it created.  If [startMonitoring] throws, then either it threw
    before any create ([config] was null, or [getAgent] rejected or
    resolved to no agent object), and no call was made on the agent
    service and nothing changed; or [getAgent] resolved to an agent, the
    exception is the rejection of the last create made, and the creates
    made before it stay made.  In both cases the monitor's map is
    unchanged; so for an agent that was not monitored before, a
    following [stopMonitoring] makes no call on the agent service and
    the policies created before the rejection are not deleted. *)
Theorem monitor_failed_start_is_not_recorded (agentId : string)
    (config : EpicMonitor.Config) (fetched : EpicMonitor.Fetched)
    (e : Exn) (w : World) :
  let start := EpicMonitor.startMonitoring_from agentId config fetched in
  let w1 := snd (start w) in
  fst (start w) = Throw e ->
  (((config = EpicMonitor.NullConfig /\ e = TypeError) \/
    (fetched = EpicMonitor.FetchRejected /\ e = AgentUnavailable agentId) \/
    (fetched = EpicMonitor.ResolvedNothing /\ e = TypeError)) /\
   w1 = w /\ pushes start w = [] \/
   exists checkInterval monitorGames agent p,
     config = EpicMonitor.Members checkInterval monitorGames /\
     fetched = EpicMonitor.Resolved agent /\ e = PushRejected p /\
     last (pushes start w) = Some p) /\
  monitoredProcesses w1 = monitoredProcesses w /\
  (monitoredProcesses w !! agentId = None ->
     pushes (EpicMonitor.stopMonitoring agentId) w1 = []).
Proof.
  intros start w1 Hthrow.
  assert (Hcases :
    ((config = EpicMonitor.NullConfig /\ e = TypeError) \/
     (fetched = EpicMonitor.FetchRejected /\ e = AgentUnavailable agentId) \/
     (fetched = EpicMonitor.ResolvedNothing /\ e = TypeError)) /\
    w1 = w /\ pushes start w = [] \/
    (exists checkInterval monitorGames agent p,
       config = EpicMonitor.Members checkInterval monitorGames /\
       fetched = EpicMonitor.Resolved agent /\ e = PushRejected p /\
       last (pushes start w) = Some p) /\
    exists t, w1 = w_log t w).
  { unfold w1, start in *.
    destruct config as [|checkInterval monitorGames];
      [|destruct fetched as [agent| |]].
    - left. cbn in Hthrow. injection Hthrow as <-.
      split; [by left|]. split; [reflexivity|].
      unfold pushes, effects. cbn. by rewrite drop_all.
    - right. cbn [EpicMonitor.startMonitoring_from] in *.
      destruct (startMonitoring_throws agentId agent checkInterval
                  monitorGames e w Hthrow) as ((p & -> & Hlast) & t & Ht).
      split; [by exists checkInterval, monitorGames, agent, p | by exists t].
    - left. cbn in Hthrow. injection Hthrow as <-.
      split; [right; by right|]. split; [reflexivity|].
      unfold pushes, effects. cbn. by rewrite drop_all.
    - left. cbn in Hthrow. injection Hthrow as <-.
      split; [right; by left|]. split; [reflexivity|].
      unfold pushes, effects. cbn. by rewrite drop_all. }
  assert (Hmap : monitoredProcesses w1 = monitoredProcesses w).
  { destruct Hcases as [(_ & -> & _)|(_ & t & ->)]; reflexivity. }
  split; [|split; [exact Hmap|]].
  - destruct Hcases as [H|[H _]]; [by left | by right].
  - intros Hnone. unfold pushes.
    rewrite (effects_eq _ w1 w1 _ _
               (stopMonitoring_unmonitored agentId w1
                  ltac:(by rewrite Hmap)) eq_refl).
    reflexivity.
Qed.

(** X20 on agent A with a service that rejects its second call, and on
    a [getAgent] that rejects. *)
Lemma monitor_failed_start_is_not_recorded_witness :
  let w := with_outcome (rejects_only (S (calls_made Sample.loaded_A)))
                        Sample.loaded_A in
  let start := EpicMonitor.startMonitoring_from "A"
                 (EpicMonitor.Members None None)
                 (EpicMonitor.Resolved Sample.agentA) in
  created_names (pushes start w) = [ "EpicGamesLauncher"; "FortniteClient" ] /\
  pushes (EpicMonitor.stopMonitoring "A") (snd (start w)) = [] /\
  monitoredProcesses
    (snd (EpicMonitor.startMonitoring_from "A" (EpicMonitor.Members None None)
            EpicMonitor.FetchRejected w)) = monitoredProcesses w.
Proof.
  intros w start. split; [vm_compute; reflexivity|].
  assert (Hf : exists e, fst (start w) = Throw e)
    by (vm_compute; eexists; reflexivity).
  destruct Hf as [e Hf].
  destruct (monitor_failed_start_is_not_recorded "A"
              (EpicMonitor.Members None None)
              (EpicMonitor.Resolved Sample.agentA) e w Hf)
    as (_ & _ & Hstop).
  split; [apply Hstop; vm_compute; reflexivity|].
  destruct (monitor_failed_start_is_not_recorded "A"
              (EpicMonitor.Members None None)
              EpicMonitor.FetchRejected (AgentUnavailable "A") w
              eq_refl) as (_ & Hmap & _).
  exact Hmap.
Defined.

Lemma updateQuotaStatus_up (agentId childId : string) (st : Allow2State)
    (processes : list Process) (w : World) :
  service_up w ->
  allow2 w childId = Some st ->
  monitoredProcesses w !! agentId = Some processes ->
  EpicMonitor.updateQuotaStatus agentId childId w =
  (Return tt,
   w_log ([Console LOG (MsgQuota agentId (EpicMonitor.allowed st))] ++
          map (fun process =>
                 ServiceCall (UpdatePolicy agentId (pr_name process)
                                (EpicMonitor.allowed st)) true) processes) w).
Proof.
  intros Hup Hst Hm. unfold EpicMonitor.updateQuotaStatus.
  unfold bind at 1, get at 1. cbn beta iota. rewrite Hst.
  unfold bind at 1, console at 1, emit at 1, modify at 1. cbn beta iota.
  rewrite Hm.
  rewrite (for_of_attempt_const _
             (fun process => UpdatePolicy agentId (pr_name process)
                               (EpicMonitor.allowed st))).
  cbn zeta. rewrite attempt_up by exact Hup. cbn [fst snd].
  unfold w_emit. rewrite w_log_app, map_map. reflexivity.
Qed.

(** X21.  After a start in which no call is rejected, the monitor
    knows the agent: [getStats] reports it as monitored with as many
    processes as policies were created, and [updateQuotaStatus] updates
    exactly the policies the start created, in the same order, with the
    flag of the quota state.  For an agent the monitor does not know,
    [getStats] reports no monitoring and no process, and
    [updateQuotaStatus] makes no call. *)
Theorem monitor_knows_started_agents (agentId childId : string)
    (agent : Agent) (checkInterval : option Z) (monitorGames : option bool)
    (st : Allow2State) (w : World) :
  service_up w ->
  allow2 w childId = Some st ->
  let start := EpicMonitor.startMonitoring agentId agent checkInterval
                 monitorGames in
  let processes := EpicMonitor.getEpicProcesses (a_platform agent)
                     (default true monitorGames) in
  let w1 := snd (start w) in
  (exists stats,
     fst (EpicMonitor.getStats agentId w1) = Return stats /\
     EpicMonitor.monitoring stats = true /\
     EpicMonitor.processCount stats = length (pushes start w) /\
     map EpicMonitor.pi_name (EpicMonitor.stats_processes stats) =
       created_names (pushes start w)) /\
  pushes (EpicMonitor.updateQuotaStatus agentId childId) w1 =
    map (fun process => UpdatePolicy agentId (pr_name process)
                          (negb (paused st) && (0 <? quota st))) processes /\
  updated_names (pushes (EpicMonitor.updateQuotaStatus agentId childId) w1) =
    created_names (pushes start w) /\
  (monitoredProcesses w !! agentId = None ->
     pushes (EpicMonitor.updateQuotaStatus agentId childId) w = [] /\
     fst (EpicMonitor.getStats agentId w) =
       Return {| EpicMonitor.stats_agentId := agentId;
                 EpicMonitor.monitoring := false;
                 EpicMonitor.processCount := 0;
                 EpicMonitor.stats_processes := [] |}).
Proof.
  intros Hup Hst start processes w1.
  pose proof (startMonitoring_eval agentId agent checkInterval monitorGames w)
    as E1. cbn zeta in E1. rewrite attempt_up in E1 by exact Hup.
  cbn [fst snd] in E1. fold start processes in E1.
  assert (Hw1 : w1 = snd (start w)) by reflexivity. rewrite E1 in Hw1.
  cbn [snd] in Hw1.
  assert (Hm1 : monitoredProcesses w1 !! agentId = Some processes)
    by (rewrite Hw1; apply lookup_insert_eq).
  assert (Hp : pushes start w =
               map (fun process => CreatePolicy agentId
                      (monitor_policy (default 30000 checkInterval) process))
                   processes).
  { unfold pushes. rewrite (effects_log start w _ ltac:(by rewrite E1)).
    by rewrite (pushes_of_calls (fun p : Push => p)), map_id. }
  assert (Hc : created_names (pushes start w) = map pr_name processes)
    by (rewrite Hp; apply created_names_monitor).
  assert (Hq : pushes (EpicMonitor.updateQuotaStatus agentId childId) w1 =
    map (fun process => UpdatePolicy agentId (pr_name process)
                          (EpicMonitor.allowed st)) processes).
  { unfold pushes.
    rewrite (effects_eq _ w1 w1 _ _
               (updateQuotaStatus_up agentId childId st processes w1
                  ltac:(by rewrite Hw1) ltac:(by rewrite Hw1) Hm1) eq_refl).
    rewrite pushes_of_app.
    apply (pushes_of_calls
             (fun process => UpdatePolicy agentId (pr_name process)
                               (EpicMonitor.allowed st))). }
  split; [|split; [|split]].
  - eexists. split; [unfold EpicMonitor.getStats; munfold; reflexivity|].
    cbn. rewrite Hm1. cbn. rewrite Hc, Hp, !length_map.
    split; [done|]. split; [done|]. by rewrite map_map.
  - exact Hq.
  - rewrite Hq, Hc. clear. induction processes as [|p l IH]; [reflexivity|].
    cbn [map].
    change (pr_name p :: updated_names
              (map (fun process => UpdatePolicy agentId (pr_name process)
                                     (EpicMonitor.allowed st)) l)
            = pr_name p :: map pr_name l).
    by rewrite IH.
  - intros Hnone. split.
    + unfold pushes, effects, EpicMonitor.updateQuotaStatus.
      unfold bind at 1, get at 1. cbn beta iota. rewrite Hst.
      unfold bind at 1, console at 1, emit at 1, modify at 1.
      cbn beta iota. rewrite Hnone. cbn.
      rewrite <- app_assoc. by rewrite drop_app_length.
    + unfold EpicMonitor.getStats. munfold. by rewrite Hnone.
Qed.

(** X21 on agent A: after the start, a quota update for a child with
    quota updates the three monitor policies. *)
Lemma monitor_knows_started_agents_witness :
  let w1 := snd (EpicMonitor.startMonitoring "A" Sample.agentA None None
                   Sample.loaded_A) in
  pushes (EpicMonitor.updateQuotaStatus "A" "kid") w1 =
  [ UpdatePolicy "A" "EpicGamesLauncher" true;
    UpdatePolicy "A" "FortniteClient" true;
    UpdatePolicy "A" "RocketLeague" true ].
Proof.
  intros w1.
  destruct (monitor_knows_started_agents "A" "kid" Sample.agentA None None
              Sample.quota10 Sample.loaded_A) as (_ & Hupdates & _).
  - intros n. reflexivity.
  - reflexivity.
  - unfold w1. rewrite Hupdates. reflexivity.
Defined.

(** ** The fan-out of a quota change *)

Lemma updateEpicPolicy_up (agent : loc) (a : Agent) (st : Allow2State)
    (w : World) :
  objs w !! agent = Some a ->
  service_up w ->
  updateEpicPolicy agent st w =
  (Return tt, w_log (update_effects a (settings (state w)) st) w).
Proof.
  intros Ha Hup. rewrite (updateEpicPolicy_attempt agent a st w Ha).
  cbn zeta. by rewrite attempt_up.
Qed.

Lemma updates_up (st : Allow2State) (ras : list (loc * Agent)) (w : World) :
  Forall (fun ra => objs w !! fst ra = Some (snd ra)) ras ->
  service_up w ->
  for_of (map fst ras) (fun agent => updateEpicPolicy agent st) w =
  (Return tt,
   w_log (concat (map (fun ra => update_effects (snd ra)
                                   (settings (state w)) st) ras)) w).
Proof.
  intros Hobjs. revert w Hobjs.
  induction ras as [|[r a] ras IH]; intros w Hobjs Hup.
  - cbn. by rewrite w_log_nil.
  - apply Forall_cons_1 in Hobjs as [Ha Hobjs]. cbn [map for_of fst snd] in *.
    unfold bind at 1. rewrite (updateEpicPolicy_up r a st w Ha Hup).
    rewrite IH by done. cbn. by rewrite w_log_app.
Qed.

Lemma pushes_of_update_effects (a : Agent) (s : Settings) (st : Allow2State) :
  pushes_of (update_effects a s st) = desired_updates a s (epicAllowed st).
Proof.
  unfold update_effects. rewrite pushes_of_framed by done.
  rewrite (pushes_of_calls (fun p : Push => p)). apply map_id.
Qed.

Lemma pushes_of_concat_updates (ras : list (loc * Agent)) (s : Settings)
    (st : Allow2State) :
  pushes_of (concat (map (fun ra => update_effects (snd ra) s st) ras)) =
  concat (map (fun ra => desired_updates (snd ra) s (epicAllowed st)) ras).
Proof.
  induction ras as [|ra ras IH]; [reflexivity|].
  cbn [map concat]. by rewrite pushes_of_app, pushes_of_update_effects, IH.
Qed.

(** X22.  A quota change is pushed to the agents of the array the
    [stateChange] handler captured at load, not to the plugin's agent
    list as such.  When every reference of the captured array denotes an
    agent object and no call is rejected, the handler returns normally,
    changes nothing but the trace, and updates, for each agent of that
    array bound to the entity and in array order, the agent's policies
    with the flag of the new state; if no agent of the array is bound to
    the entity, it makes no call. *)
Theorem quota_change_reaches_captured_agents (childId : string)
    (st : Allow2State) (captured : loc) (ras : list (loc * Agent))
    (w : World) :
  closure_agents w = Some captured ->
  arrs w !! captured = Some (map fst ras) ->
  Forall (fun ra => objs w !! fst ra = Some (snd ra)) ras ->
  service_up w ->
  fst (onStateChange childId st w) = Return tt /\
  snd (onStateChange childId st w) =
    w_log (effects (onStateChange childId st) w) w /\
  pushes (onStateChange childId st) w =
    concat (map (fun ra => desired_updates (snd ra) (settings (state w))
                             (epicAllowed st))
                (linked_to childId ras)) /\
  (linked_to childId ras = [] -> pushes (onStateChange childId st) w = []).
Proof.
  intros Hc Harr Hobjs Hup.
  assert (E : onStateChange childId st w =
    (Return tt,
     w_log ([Console LOG (MsgStateChanged childId)] ++
            concat (map (fun ra => update_effects (snd ra)
                                     (settings (state w)) st)
                        (linked_to childId ras))) w)).
  { unfold onStateChange. munfold. rewrite Hc. cbn. rewrite Harr. cbn.
    rewrite (filter_agents_known _ ras) by exact Hobjs. cbn.
    fold (linked_to childId ras).
    rewrite (updates_up st (linked_to childId ras)).
    - cbn. unfold w_emit. by rewrite w_log_app.
    - by apply filter_known.
    - exact Hup. }
  assert (Hp : pushes (onStateChange childId st) w =
    concat (map (fun ra => desired_updates (snd ra) (settings (state w))
                             (epicAllowed st)) (linked_to childId ras))).
  { unfold pushes. rewrite (effects_eq _ w w _ _ E eq_refl).
    rewrite pushes_of_app. apply pushes_of_concat_updates. }
  split; [by rewrite E|]. split; [|split].
  - by rewrite (effects_eq _ w w _ _ E eq_refl), E.
  - exact Hp.
  - intros Hnil. by rewrite Hp, Hnil.
Qed.

(** X22 on the world in which agent A is known and bound to "kid": the
    change to paused updates the four policies of A. *)
Lemma quota_change_reaches_captured_agents_witness :
  let w := snd (linkAgent "A" "kid" Sample.loaded_A) in
  updated_names (pushes (onStateChange "kid" paused10) w) =
  [ "EpicGamesLauncher.exe"; "FortniteClient-Win64-Shipping.exe";
    "FortniteLauncher.exe"; "RocketLeague.exe" ].
Proof.
  intros w.
  destruct (quota_change_reaches_captured_agents "kid" paused10 2%nat
              [(0%nat, set_childId (Some "kid") Sample.agentA)] w)
    as (_ & _ & Hpushes & _).
  - reflexivity.
  - reflexivity.
  - repeat constructor.
  - intros n. reflexivity.
  - rewrite Hpushes. reflexivity.
Defined.

(** ** Discovery followed by loss *)

Lemma without_agent_fresh (agent : loc) (a : Agent)
    (ras : list (loc * Agent)) :
  Forall (fun ra => a_id (snd ra) <> a_id a) ras ->
  without_agent (a_id a) (ras ++ [(agent, a)]) = ras.
Proof.
  intros Hids. unfold without_agent. rewrite List.filter_app. cbn.
  rewrite String.eqb_refl. cbn. rewrite app_nil_r.
  induction Hids as [|ra ras Hne _ IH]; [reflexivity|]. cbn.
  destruct (String.eqb_spec (a_id (snd ra)) (a_id a)); [done|].
  cbn. by rewrite IH.
Qed.

(** X23.  Losing an agent right after its discovery restores the agent
    list but leaves its policies.  For an agent whose identifier no
    known agent has, a discovery in which no call is rejected followed
    by the loss of that identifier leaves the plugin with the agents it
    knew before, in the same order, and the same agent objects; the
    creates of the discovery are not followed by any delete. *)
Theorem loss_after_discovery_restores_list (agent : loc) (a : Agent)
    (ras : list (loc * Agent)) (w : World) :
  known_pairs w ras ->
  objs w !! agent = Some a ->
  service_up w ->
  Forall (fun ra => a_id (snd ra) <> a_id a) ras ->
  let w1 := snd (onAgentDiscovered agent w) in
  let w2 := snd (onAgentLost (a_id a) w1) in
  known_pairs w2 ras /\
  objs w2 = objs w /\
  pushes (onAgentDiscovered agent) w =
    map (CreatePolicy (a_id a)) (desired_policies a (settings (state w))) /\
  pushes (onAgentLost (a_id a)) w1 = [].
Proof.
  intros Hknown Ha Hup Hids w1 w2.
  pose proof (onAgentDiscovered_known_pairs agent a ras w Hknown Ha Hup)
    as Hknown1. fold w1 in Hknown1.
  pose proof (onAgentLost_known_pairs (a_id a) _ w1 Hknown1) as Hknown2.
  fold w2 in Hknown2. rewrite without_agent_fresh in Hknown2 by done.
  pose proof (onAgentLost_known (a_id a) _ w1 Hknown1) as E2.
  cbn zeta in E2.
  destruct Hknown as [Harr Hobjs].
  pose proof (onAgentDiscovered_up agent a _ w Ha Harr Hup) as E1.
  split; [exact Hknown2|]. split; [|split].
  - unfold w2. rewrite E2. cbn [snd]. unfold w1. by rewrite E1.
  - by apply (pushes_onAgentDiscovered_up agent a (map fst ras)).
  - unfold pushes. rewrite (effects_eq _ w1 _ _ _ E2 eq_refl).
    by destruct (has_sendToRenderer (ctx w1)).
Qed.

(** X23 on agent B, discovered and lost again while agent A is known. *)
Lemma loss_after_discovery_restores_list_witness :
  let w1 := snd (onAgentDiscovered 1%nat Sample.loaded_A) in
  let w2 := snd (onAgentLost "B" w1) in
  fst (getAgents w2) = Return (SuccessAgents [Sample.agentA]) /\
  pushes (onAgentLost "B") w1 = [].
Proof.
  intros w1 w2.
  destruct (loss_after_discovery_restores_list 1%nat Sample.agentB
              [(0%nat, Sample.agentA)] Sample.loaded_A)
    as (Hknown & _ & _ & Hpushes).
  - split; [reflexivity | repeat constructor].
  - reflexivity.
  - intros n. reflexivity.
  - repeat constructor. discriminate.
  - split; [|exact Hpushes].
    exact (f_equal fst (getAgents_known _ w2 Hknown)).
Defined.

(** * The allowed flag on a link and on a quota change *)

Lemma desired_updates_head (a : Agent) (s : Settings) (b : bool) :
  exists rest, desired_updates a s b = launcher_update a b :: rest.
Proof. unfold desired_updates, desired_policies. cbn. by eexists. Qed.

(** Whatever the agent service does, [updateEpicPolicy] attempts the
    update of the launcher policy. *)
Lemma updateEpicPolicy_head (agent : loc) (a : Agent) (st : Allow2State)
    (w : World) :
  objs w !! agent = Some a ->
  exists rest,
    pushes (updateEpicPolicy agent st) w =
    launcher_update a (epicAllowed st) :: rest.
Proof.
  intros Ha.
  pose proof (updateEpicPolicy_attempt agent a st w Ha) as E.
  cbn zeta in E.
  destruct (desired_updates_head a (settings (state w)) (epicAllowed st))
    as [rest Hd].
  rewrite Hd in E.
  set (r := attempt _ _ _) in E.
  assert (Hmade : pushes (updateEpicPolicy agent st) w = pushes_of (snd r)).
  { unfold pushes. rewrite (effects_eq _ w w _ _ E eq_refl).
    apply pushes_of_framed; [done | by destruct (fst r)]. }
  rewrite Hmade. unfold r. cbn [attempt].
  destruct (svc_outcome w (calls_made w)); cbn [snd]; by eexists.
Qed.

Lemma updateEpicPolicy_flag (agent : loc) (st : Allow2State) (w : World) :
  Forall (update_with (epicAllowed st)) (pushes (updateEpicPolicy agent st) w).
Proof.
  apply only_pushes_Forall, extends_effects, respects_logged_extends,
    updateEpicPolicy_logged.
Qed.

Lemma linkAgent_pushes (agentId childId : string) (ras : list (loc * Agent))
    (r : loc) (a : Agent) (st : Allow2State) (w : World) :
  known_pairs w ras ->
  first_with_id agentId ras = Some (r, a) ->
  allow2 w childId = Some st ->
  pushes (linkAgent agentId childId) w =
  pushes (updateEpicPolicy r st)
         (w_objs (<[r := set_childId (Some childId) a]> (objs w)) w).
Proof.
  intros [Harr Hobjs] Hfind Hst. apply known_pairs_Forall in Hobjs.
  pose proof (linkAgent_eval agentId childId _ w Harr) as E.
  rewrite (find_agent_known _ _ w Hobjs) in E. cbn [fst] in E.
  fold (first_with_id agentId ras) in E. rewrite Hfind in E.
  cbn [fmap option_fmap option_map fst] in E.
  destruct (first_with_id_found _ _ _ _ w Hobjs Hfind) as [Ha _].
  rewrite Ha in E. cbn zeta in E. rewrite Hst in E.
  set (a' := set_childId (Some childId) a) in *.
  set (w1 := w_objs (<[r := a']> (objs w)) w) in *.
  assert (Ha1 : objs w1 !! r = Some a') by apply lookup_insert_eq.
  pose proof (updateEpicPolicy_attempt r a' st w1 Ha1) as Hatt.
  cbn zeta in Hatt.
  unfold pushes. f_equal.
  rewrite (effects_eq _ w1 w1 _ _ Hatt eq_refl).
  apply (effects_eq _ w w1 (Return Success)); [|reflexivity].
  by rewrite E, Hatt.
Qed.

(** Whatever the agent service does, the fan-out over a list of agents
    runs to its end and attempts the launcher update of each of them. *)
Lemma updates_any (st : Allow2State) (ras : list (loc * Agent)) (w : World) :
  Forall (fun ra => objs w !! fst ra = Some (snd ra)) ras ->
  exists t,
    for_of (map fst ras) (fun agent => updateEpicPolicy agent st) w =
      (Return tt, w_log t w) /\
    forall ra, In ra ras ->
               In (launcher_update (snd ra) (epicAllowed st)) (pushes_of t).
Proof.
  intros Hobjs. revert w Hobjs.
  induction ras as [|[r a] ras IH]; intros w Hobjs.
  - exists []. split; [cbn; by rewrite w_log_nil | intros ra []].
  - apply Forall_cons_1 in Hobjs as [Ha Hobjs]. cbn [fst snd] in Ha.
    pose proof (updateEpicPolicy_attempt r a st w Ha) as E.
    cbn zeta in E.
    destruct (updateEpicPolicy_head r a st w Ha) as [rest Hhead].
    unfold pushes in Hhead.
    rewrite (effects_eq _ w w _ _ E eq_refl) in Hhead.
    set (t1 := _ ++ _ ++ _) in E, Hhead.
    destruct (IH (w_log t1 w) Hobjs) as (t2 & E2 & Hin2).
    exists (t1 ++ t2). split.
    + cbn [map for_of fst]. unfold bind at 1. rewrite E, E2.
      by rewrite w_log_app.
    + intros ra [<-|Hin]; rewrite pushes_of_app; apply in_or_app.
      * left. rewrite Hhead. by left.
      * right. by apply Hin2.
Qed.

Lemma onStateChange_any (childId : string) (st : Allow2State)
    (captured : loc) (ras : list (loc * Agent)) (w : World) :
  closure_agents w = Some captured ->
  arrs w !! captured = Some (map fst ras) ->
  Forall (fun ra => objs w !! fst ra = Some (snd ra)) ras ->
  forall ra, In ra (linked_to childId ras) ->
    In (launcher_update (snd ra) (epicAllowed st))
       (pushes (onStateChange childId st) w).
Proof.
  intros Hc Harr Hobjs.
  assert (E : exists t,
    onStateChange childId st w =
      (Return tt, w_log ([Console LOG (MsgStateChanged childId)] ++ t) w) /\
    forall ra, In ra (linked_to childId ras) ->
      In (launcher_update (snd ra) (epicAllowed st)) (pushes_of t)).
  { unfold onStateChange. munfold. rewrite Hc. cbn. rewrite Harr. cbn.
    rewrite (filter_agents_known _ ras) by exact Hobjs. cbn.
    fold (linked_to childId ras).
    match goal with
    | |- context [for_of _ _ ?w1] =>
        destruct (updates_any st (linked_to childId ras) w1)
          as (t & Et & Hin); [by apply filter_known|]
    end.
    exists t. rewrite Et. split; [|exact Hin].
    cbn. unfold w_emit. by rewrite w_log_app. }
  destruct E as (t & E & Hin). intros ra Hra.
  unfold pushes. rewrite (effects_eq _ w w _ _ E eq_refl).
  rewrite pushes_of_app. apply in_or_app. right. by apply Hin.
Qed.

Lemma onStateChange_up (childId : string) (st : Allow2State)
    (captured : loc) (ras : list (loc * Agent)) (w : World) :
  closure_agents w = Some captured ->
  arrs w !! captured = Some (map fst ras) ->
  Forall (fun ra => objs w !! fst ra = Some (snd ra)) ras ->
  service_up w ->
  pushes (onStateChange childId st) w =
  concat (map (fun ra => desired_updates (snd ra) (settings (state w))
                           (epicAllowed st))
              (linked_to childId ras)).
Proof.
  intros Hc Harr Hobjs Hup.
  assert (E : onStateChange childId st w =
    (Return tt,
     w_log ([Console LOG (MsgStateChanged childId)] ++
            concat (map (fun ra => update_effects (snd ra)
                                     (settings (state w)) st)
                        (linked_to childId ras))) w)).
  { unfold onStateChange. munfold. rewrite Hc. cbn. rewrite Harr. cbn.
    rewrite (filter_agents_known _ ras) by exact Hobjs. cbn.
    fold (linked_to childId ras).
    rewrite (updates_up st (linked_to childId ras)).
    - cbn. unfold w_emit. by rewrite w_log_app.
    - by apply filter_known.
    - exact Hup. }
  unfold pushes. rewrite (effects_eq _ w w _ _ E eq_refl).
  rewrite pushes_of_app. apply pushes_of_concat_updates.
Qed.

(** C1.  The allowed flag computed on a link and on a quota change is
    [!paused && quota > 0], and it is pushed.  Linking a known agent to
    an entity whose quota state the bridge returns always attempts the
    update of the agent's launcher policy with that flag, makes no call
    but updates carrying it, and updates the whole policy list of the
    agent when no call is rejected.  A quota change attempts, whatever
    the agent service does, the launcher update with the flag of the new
    state for every agent of the captured array bound to the entity,
    makes no call but updates carrying it, and updates the whole policy
    list of each of these agents when no call is rejected.  The monitor's
    quota update uses the same formula.  Hence a paused entity is denied
    whatever its quota, an entity with quota at most 0 is denied, and an
    entity that is not paused and has positive quota is allowed. *)
Theorem allowed_flag_formula (agentId childId : string) (st : Allow2State)
    (known held : list (loc * Agent)) (r captured : loc) (a : Agent)
    (processes : list Process) (w : World) :
  let flag := negb (paused st) && (0 <? quota st) in
  epicAllowed st = flag /\
  EpicMonitor.allowed st = flag /\
  (known_pairs w known ->
   first_with_id agentId known = Some (r, a) ->
   allow2 w childId = Some st ->
     (exists rest, pushes (linkAgent agentId childId) w =
                   launcher_update a flag :: rest) /\
     Forall (update_with flag) (pushes (linkAgent agentId childId) w) /\
     (service_up w ->
        pushes (linkAgent agentId childId) w =
        desired_updates a (settings (state w)) flag)) /\
  (closure_agents w = Some captured ->
   arrs w !! captured = Some (map fst held) ->
   Forall (fun ra => objs w !! fst ra = Some (snd ra)) held ->
     (forall ra, In ra (linked_to childId held) ->
        In (launcher_update (snd ra) flag)
           (pushes (onStateChange childId st) w)) /\
     Forall (update_with flag) (pushes (onStateChange childId st) w) /\
     (service_up w ->
        pushes (onStateChange childId st) w =
        concat (map (fun ra => desired_updates (snd ra) (settings (state w))
                                 flag)
                    (linked_to childId held)))) /\
  (allow2 w childId = Some st ->
   monitoredProcesses w !! agentId = Some processes ->
     Forall (update_with flag)
            (pushes (EpicMonitor.updateQuotaStatus agentId childId) w) /\
     (service_up w ->
        pushes (EpicMonitor.updateQuotaStatus agentId childId) w =
        map (fun process => UpdatePolicy agentId (pr_name process) flag)
            processes)) /\
  (paused st = true -> flag = false) /\
  (quota st <= 0 -> flag = false) /\
  (paused st = false -> 0 < quota st -> flag = true).
Proof.
  intros flag.
  change (negb (paused st) && (0 <? quota st)) with (epicAllowed st) in flag.
  subst flag.
  split; [reflexivity|]. split; [reflexivity|].
  split; [|split; [|split; [|split; [|split]]]].
  - intros Hknown Hfind Hst.
    rewrite (linkAgent_pushes agentId childId known r a st w Hknown Hfind Hst).
    set (a' := set_childId (Some childId) a).
    set (w1 := w_objs (<[r := a']> (objs w)) w).
    assert (Ha1 : objs w1 !! r = Some a') by apply lookup_insert_eq.
    split; [exact (updateEpicPolicy_head r a' st w1 Ha1)|].
    split; [apply updateEpicPolicy_flag|].
    intros Hup.
    destruct (updateEpicPolicy_pushes r a' st w1 Ha1) as [_ Hall].
    by apply Hall.
  - intros Hc Harr Hobjs.
    split; [by apply (onStateChange_any childId st captured held)|].
    split.
    + apply only_pushes_Forall, extends_effects, respects_logged_extends,
        onStateChange_logged.
    + by apply (onStateChange_up childId st captured held).
  - intros Hst Hm. split.
    + apply only_pushes_Forall.
      destruct (updateQuotaStatus_logged agentId childId st w Hst)
        as [t [E Ht]].
      rewrite (effects_log _ w t); [done | by rewrite E].
    + intros Hup. unfold pushes.
      rewrite (effects_eq _ w w _ _
                 (updateQuotaStatus_up agentId childId st processes w
                    Hup Hst Hm) eq_refl).
      rewrite pushes_of_app.
      apply (pushes_of_calls
               (fun process => UpdatePolicy agentId (pr_name process)
                                 (EpicMonitor.allowed st))).
  - unfold epicAllowed. by intros ->.
  - unfold epicAllowed. intros Hq.
    destruct (Z.ltb_spec 0 (quota st)); [lia | apply andb_false_r].
  - unfold epicAllowed. intros -> Hq.
    by destruct (Z.ltb_spec 0 (quota st)); [|lia].
Qed.

(** C1 at three quota states (paused with quota 5, not paused with
    quota 0, not paused with quota 5), on linking agent A to the child
    "kid", who is not paused and has quota 10, and on the change of
    "kid" to paused afterwards. *)
Lemma allowed_flag_formula_witness :
  let linked := snd (linkAgent "A" "kid" Sample.loaded_A) in
  epicAllowed {| paused := true; quota := 5 |} = false /\
  epicAllowed {| paused := false; quota := 0 |} = false /\
  epicAllowed {| paused := false; quota := 5 |} = true /\
  pushes (linkAgent "A" "kid") Sample.loaded_A =
    [ UpdatePolicy "A" "EpicGamesLauncher.exe" true;
      UpdatePolicy "A" "FortniteClient-Win64-Shipping.exe" true;
      UpdatePolicy "A" "FortniteLauncher.exe" true;
      UpdatePolicy "A" "RocketLeague.exe" true ] /\
  pushes (onStateChange "kid" paused10) linked =
    [ UpdatePolicy "A" "EpicGamesLauncher.exe" false;
      UpdatePolicy "A" "FortniteClient-Win64-Shipping.exe" false;
      UpdatePolicy "A" "FortniteLauncher.exe" false;
      UpdatePolicy "A" "RocketLeague.exe" false ].
Proof.
  intros linked.
  pose proof (fun st w =>
    allowed_flag_formula "A" "kid" st [(0%nat, Sample.agentA)]
      [(0%nat, set_childId (Some "kid") Sample.agentA)] 0%nat 2%nat
      Sample.agentA [] w) as H.
  split; [|split; [|split; [|split]]].
  - destruct (H {| paused := true; quota := 5 |} Sample.loaded_A)
      as (-> & _). reflexivity.
  - destruct (H {| paused := false; quota := 0 |} Sample.loaded_A)
      as (-> & _). reflexivity.
  - destruct (H {| paused := false; quota := 5 |} Sample.loaded_A)
      as (-> & _). reflexivity.
  - destruct (H Sample.quota10 Sample.loaded_A) as (_ & _ & Hlink & _).
    destruct Hlink as (_ & _ & Hall).
    + split; [reflexivity | repeat constructor].
    + reflexivity.
    + reflexivity.
    + rewrite Hall; [reflexivity | intros n; reflexivity].
  - destruct (H paused10 linked) as (_ & _ & _ & Hchange & _).
    destruct Hchange as (_ & _ & Hall).
    + vm_compute. reflexivity.
    + vm_compute. reflexivity.
    + repeat constructor.
    + rewrite Hall; [reflexivity | intros n; reflexivity].
Defined.
